(** * findcert: a shallow embedding of the two command variants

    The repository holds two [package main] programs that query the
    certificate-transparency database at crt.sh:

    - the _direct_ variant, which selects raw DER certificates with one
      [db.QueryContext] call, parses them and optionally prints them as PEM;
    - the _aggregated_ variant ([main.go]), which prepares a larger statement
      and logs eight text columns per row.

    Go values are embedded as follows: [error] interface values are
    [option error] ([None] is [nil]); [[]byte] is [list Byte.byte]; [int] is
    [Z]; a function with side effects is a state transformer over [World]
    (the driver calls made so far and the lines written to the logger); what
    the outside world answers (the SQL driver, the server, the log writer) is
    read from an [Env].  Deferred calls and the difference between named and
    unnamed results are modelled explicitly, since the claims about error
    aggregation depend on them. *)

From Stdlib Require Import List String Ascii ZArith Lia Bool Arith.
From Stdlib Require Import Strings.Byte Sorting.Sorted Sorting.Permutation.
Import ListNotations.

Local Open Scope string_scope.
Local Open Scope list_scope.

(** ** Go values *)

Definition bytes : Type := list Byte.byte.

(** Go [error] values.  [errors_New] is [errors.New] (and any error created
    by a library), [fmt_Errorf] is [fmt.Errorf] with the format, the [%v]
    operands and the error wrapped by [%w]; [multiError] is the container
    built by the multierror package. *)
#[local] Set Warnings "-register-all".
Inductive error : Type :=
| errors_New (text : string)
| fmt_Errorf (format : string) (operands : list string) (wrapped : error)
| multiError (errs : list error).
#[local] Set Warnings "register-all".

Definition nl : ascii := "010"%char.

(** ** encoding/base64 and encoding/pem

    Modelled from the spec: the armoring encoder that [run] calls
    ([pem.Encode]) and its decoder are Go's packages encoding/pem and
    encoding/base64, which are not among the sources.  The specification
    describes PEM as a base64-armored text that wraps the DER bytes between
    the delimiter lines of a block; the definitions follow the algorithms of
    the two packages: the standard alphabet with [=] padding, lines of 64
    characters, a BEGIN and an END line that carry the type label. *)

Module base64.

Definition encodeStd : list ascii :=
  list_ascii_of_string
    "ABCDEFGHIJKLMNOPQRSTUVWXYZabcdefghijklmnopqrstuvwxyz0123456789+/".

Definition padChar : ascii := "="%char.

(** [enc.encode[v]] *)
Definition encode (v : Z) : ascii := nth (Z.to_nat v) encodeStd padChar.

(** [uint(b)] *)
Definition uint (b : Byte.byte) : Z := Z.of_N (Byte.to_N b).

(** [byte(v)]: conversion to an 8-bit value keeps the low byte. *)
Definition byte_of (v : Z) : Byte.byte :=
  match Byte.of_N (Z.to_N (Z.land v 255)) with
  | Some b => b
  | None => Byte.x00
  end.

(** [Encoding.Encode]: three source bytes give four characters; a final
    group of one or two bytes is padded with [=]. *)
Fixpoint Encode (src : bytes) : list ascii :=
  match src with
  | [] => []
  | [b0] =>
      let val := Z.shiftl (uint b0) 16 in
      [encode (Z.land (Z.shiftr val 18) 63);
       encode (Z.land (Z.shiftr val 12) 63);
       padChar; padChar]
  | [b0; b1] =>
      let val := Z.lor (Z.shiftl (uint b0) 16) (Z.shiftl (uint b1) 8) in
      [encode (Z.land (Z.shiftr val 18) 63);
       encode (Z.land (Z.shiftr val 12) 63);
       encode (Z.land (Z.shiftr val 6) 63);
       padChar]
  | b0 :: b1 :: b2 :: rest =>
      let val := Z.lor (Z.lor (Z.shiftl (uint b0) 16) (Z.shiftl (uint b1) 8))
                       (uint b2) in
      encode (Z.land (Z.shiftr val 18) 63)
      :: encode (Z.land (Z.shiftr val 12) 63)
      :: encode (Z.land (Z.shiftr val 6) 63)
      :: encode (Z.land val 63)
      :: Encode rest
  end.

(** [enc.decodeMap[c]]: the position of [c] in the alphabet. *)
Fixpoint index_of (c : ascii) (alphabet : list ascii) (i : Z) : option Z :=
  match alphabet with
  | [] => None
  | a :: alphabet' =>
      if Ascii.eqb a c then Some i else index_of c alphabet' (i + 1)
  end.

Definition decodeMap (c : ascii) : option Z := index_of c encodeStd 0.

(** One quantum of four characters, as [decodeQuantum] assembles it:
    two characters and [==] give one byte, three and [=] give two, four
    give three.  Padding may only end the input. *)
Definition decodeQuantum (c0 c1 c2 c3 : ascii) (last : bool)
  : option bytes :=
  match decodeMap c0, decodeMap c1 with
  | Some d0, Some d1 =>
      if Ascii.eqb c3 padChar then
        if negb last then None
        else if Ascii.eqb c2 padChar then
          let val := Z.lor (Z.shiftl d0 18) (Z.shiftl d1 12) in
          Some [byte_of (Z.shiftr val 16)]
        else
          match decodeMap c2 with
          | Some d2 =>
              let val := Z.lor (Z.lor (Z.shiftl d0 18) (Z.shiftl d1 12))
                               (Z.shiftl d2 6) in
              Some [byte_of (Z.shiftr val 16); byte_of (Z.shiftr val 8)]
          | None => None
          end
      else
        match decodeMap c2, decodeMap c3 with
        | Some d2, Some d3 =>
            let val :=
              Z.lor (Z.lor (Z.lor (Z.shiftl d0 18) (Z.shiftl d1 12))
                           (Z.shiftl d2 6)) d3 in
            Some [byte_of (Z.shiftr val 16); byte_of (Z.shiftr val 8);
                  byte_of val]
        | _, _ => None
        end
  | _, _ => None
  end.

Definition is_nil {A} (l : list A) : bool :=
  match l with [] => true | _ => false end.

Fixpoint decodeQuanta (s : list ascii) : option bytes :=
  match s with
  | [] => Some []
  | c0 :: c1 :: c2 :: c3 :: rest =>
      match decodeQuantum c0 c1 c2 c3 (is_nil rest) with
      | Some q =>
          match decodeQuanta rest with
          | Some tl => Some (q ++ tl)
          | None => None
          end
      | None => None
      end
  | _ => None
  end.

Definition is_newline (c : ascii) : bool :=
  Ascii.eqb c nl || Ascii.eqb c "013"%char.

(** [Encoding.Decode]: carriage returns and line feeds are skipped,
    anything else outside the alphabet is a [CorruptInputError]. *)
Definition Decode (s : list ascii) : option bytes :=
  decodeQuanta (filter (fun c => negb (is_newline c)) s).

End base64.

(** ** Package bytes (Go standard library), the functions [pem.Decode]
    uses, on text *)

Module gobytes.

Fixpoint HasPrefix (s prefix : list ascii) {struct prefix} : bool :=
  match prefix, s with
  | [], _ => true
  | p :: prefix', c :: s' => Ascii.eqb p c && HasPrefix s' prefix'
  | _ :: _, [] => false
  end.

Definition HasSuffix (s suffix : list ascii) : bool :=
  HasPrefix (rev s) (rev suffix).

(** [bytes.Index]; [None] stands for -1. *)
Fixpoint Index (s sep : list ascii) : option nat :=
  if HasPrefix s sep then Some 0%nat
  else match s with
       | [] => None
       | _ :: s' => option_map S (Index s' sep)
       end.

(** [bytes.Cut]: the text before and after the first [sep]. *)
Definition Cut (s sep : list ascii) : option (list ascii * list ascii) :=
  match Index s sep with
  | Some i => Some (firstn i s, skipn (i + List.length sep) s)
  | None => None
  end.

Fixpoint IndexByte (s : list ascii) (c : ascii) : option nat :=
  match s with
  | [] => None
  | x :: s' => if Ascii.eqb x c then Some 0%nat else option_map S (IndexByte s' c)
  end.

Fixpoint dropWhile (f : ascii -> bool) (s : list ascii) : list ascii :=
  match s with
  | [] => []
  | c :: s' => if f c then dropWhile f s' else s
  end.

Definition is_space_or_tab (c : ascii) : bool :=
  Ascii.eqb c " "%char || Ascii.eqb c "009"%char.

(** [bytes.TrimRight(s, " \t")] *)
Definition TrimRight (s : list ascii) : list ascii :=
  rev (dropWhile is_space_or_tab (rev s)).

(** [bytes.Contains], written for the substring test of the
    specification. *)
Definition Contains (s sub : list ascii) : bool :=
  match Index s sub with Some _ => true | None => false end.

End gobytes.

Module pem.

(** [pem.Block]; the program sets no [Headers], so the field is left out. *)
Record Block : Type := { Type_ : list ascii; Bytes : bytes }.

Definition pemStart : list ascii := nl :: list_ascii_of_string "-----BEGIN ".
Definition pemEnd : list ascii := nl :: list_ascii_of_string "-----END ".
Definition pemEndOfLine : list ascii := list_ascii_of_string "-----".
Definition pemLineLength : nat := 64.

(** [lineBreaker]: forwards its input and writes a line feed each time
    [pemLineLength] characters have gone out; [Close] ends a partly filled
    line.  [used] is the number of characters on the current line. *)
Fixpoint lineBreaker (used : nat) (s : list ascii) : list ascii :=
  match s with
  | [] => if Nat.eqb used 0 then [] else [nl]
  | c :: s' =>
      if Nat.eqb (S used) pemLineLength
      then c :: nl :: lineBreaker 0 s'
      else c :: lineBreaker (S used) s'
  end.

(** [pem.Encode] for a block without headers: the text handed to the
    writer. *)
Definition Encode (b : Block) : list ascii :=
  tl pemStart ++ Type_ b ++ pemEndOfLine ++ [nl]
  ++ lineBreaker 0 (base64.Encode (Bytes b))
  ++ tl pemEnd ++ Type_ b ++ pemEndOfLine ++ [nl].

(** [getLine]: the first line of [data] without its line end and trailing
    blanks, and what follows it. *)
Definition getLine (data : list ascii) : list ascii * list ascii :=
  match gobytes.IndexByte data nl with
  | None => (gobytes.TrimRight data, [])
  | Some i =>
      let i' :=
        if Nat.ltb 0 i && Ascii.eqb (nth (i - 1) data nl) "013"%char
        then (i - 1)%nat else i in
      (gobytes.TrimRight (firstn i' data), skipn (S i) data)
  end.

Definition removeSpacesAndTabs (data : list ascii) : list ascii :=
  filter (fun c => negb (gobytes.is_space_or_tab c)) data.

Definition colon : list ascii := [":"%char].

(** The loop over header lines [key: value]: it stops at the first line
    without a colon and gives the number of headers read and the text from
    that line on; [None] when the text ends first ([Decode] then returns
    [nil]).  Every round consumes a line, so [fuel] above the length of
    [rest] is never used up. *)
Fixpoint skipHeaders (fuel : nat) (n : nat) (rest : list ascii)
  : option (nat * list ascii) :=
  match fuel with
  | O => None
  | S fuel' =>
      if base64.is_nil rest then None
      else
        match gobytes.Cut (fst (getLine rest)) colon with
        | None => Some (n, rest)
        | Some _ => skipHeaders fuel' (S n) (snd (getLine rest))
        end
  end.

(** What one round of the loop of [Decode] ends in: a block and the text
    after it, [continue] with the text still to be searched, or
    [return nil, data]. *)
Inductive Round : Type :=
| Found (b : Block) (rest : list ascii)
| Continue (rest : list ascii)
| GiveUp.

(** One round of [Decode], from behind a [-----BEGIN ]. *)
Definition decodeRound (rest0 : list ascii) : Round :=
  let typeLine0 := fst (getLine rest0) in
  let rest1 := snd (getLine rest0) in
  if negb (gobytes.HasSuffix typeLine0 pemEndOfLine) then Continue rest1
  else
    let typeLine :=
      firstn (List.length typeLine0 - List.length pemEndOfLine) typeLine0 in
    match skipHeaders (S (List.length rest1)) 0 rest1 with
    | None => GiveUp
    | Some (headers, rest) =>
        let ends :=
          if Nat.eqb headers 0 && gobytes.HasPrefix rest (tl pemEnd)
          then Some (0%nat, (List.length pemEnd - 1)%nat)
          else match gobytes.Index rest pemEnd with
               | Some i => Some (i, (i + List.length pemEnd)%nat)
               | None => None
               end in
        match ends with
        | None => Continue rest
        | Some (endIndex, endTrailerIndex) =>
            let endTrailer := skipn endTrailerIndex rest in
            let endTrailerLen :=
              (List.length typeLine + List.length pemEndOfLine)%nat in
            if Nat.ltb (List.length endTrailer) endTrailerLen
            then Continue rest
            else
              let restOfEndLine := skipn endTrailerLen endTrailer in
              let endTrailer' := firstn endTrailerLen endTrailer in
              if negb (gobytes.HasPrefix endTrailer' typeLine)
                 || negb (gobytes.HasSuffix endTrailer' pemEndOfLine)
              then Continue rest
              else if negb (base64.is_nil (fst (getLine restOfEndLine)))
              then Continue rest
              else
                match base64.Decode
                        (removeSpacesAndTabs (firstn endIndex rest)) with
                | None => Continue rest
                | Some decoded =>
                    Found {| Type_ := typeLine; Bytes := decoded |}
                      (snd (getLine
                              (skipn (endIndex + List.length pemEnd - 1) rest)))
                end
        end
    end.

(** The loop of [Decode]: find the next [-----BEGIN ] (at the very start, or
    behind a line feed) and try a round from there.  Every round starts
    behind a marker, so [fuel] above the length of the text is never used
    up. *)
Fixpoint decodeLoop (fuel : nat) (rest : list ascii)
  : option (Block * list ascii) :=
  match fuel with
  | O => None
  | S fuel' =>
      let after :=
        if gobytes.HasPrefix rest (tl pemStart)
        then Some (skipn (List.length pemStart - 1) rest)
        else option_map snd (gobytes.Cut rest pemStart) in
      match after with
      | None => None
      | Some rest0 =>
          match decodeRound rest0 with
          | Found b r => Some (b, r)
          | Continue r => decodeLoop fuel' r
          | GiveUp => None
          end
      end
  end.

(** [pem.Decode]: the first block of [data] and the rest of the text, or
    [None] when there is no block ([nil, data]). *)
Definition Decode (data : list ascii) : option (Block * list ascii) :=
  decodeLoop (S (List.length data)) data.

End pem.

(** ** The certificate-transparency database

    The server is an external collaborator.  Of the table
    [certificate_and_identities] the direct query reads three columns. *)

Record Identity : Type := {
  certificate_id : Z;
  name_value : string;
  certificate : bytes
}.

(** The eight text columns selected by the aggregated query, in order. *)
Record Issuance : Type := {
  ISSUER_CA_ID : string;
  ISSUER_NAME : string;
  NAME_VALUE : string;
  ID : string;
  ENTRY_TIMESTAMP : string;
  NOT_BEFORE : string;
  NOT_AFTER : string;
  SERIAL_NUMBER : string
}.

Module sql.

(** [string LIKE pattern] as PostgreSQL evaluates it: the pattern has to
    cover the whole string; [%] stands for any run of characters, [_] for
    any one character, and a backslash makes the character after it
    literal.  A pattern that ends in a lone backslash matches nothing here
    (the server rejects it). *)
Fixpoint like_match (pattern s : list ascii) {struct pattern} : bool :=
  match pattern with
  | [] => base64.is_nil s
  | p :: pattern' =>
      if Ascii.eqb p "%"%char then
        (fix any_run (s : list ascii) : bool :=
           like_match pattern' s
           || match s with
              | [] => false
              | _ :: s' => any_run s'
              end) s
      else if Ascii.eqb p "_"%char then
        match s with
        | [] => false
        | _ :: s' => like_match pattern' s'
        end
      else if Ascii.eqb p "\"%char then
        match pattern', s with
        | q :: pattern'', c :: s' => Ascii.eqb q c && like_match pattern'' s'
        | _, _ => false
        end
      else
        match s with
        | [] => false
        | c :: s' => Ascii.eqb p c && like_match pattern' s'
        end
  end.

(** [ORDER BY certificate_id DESC]: insertion into a list that is already
    in descending order. *)
Fixpoint insert_desc (r : Identity) (sorted : list Identity)
  : list Identity :=
  match sorted with
  | [] => [r]
  | x :: sorted' =>
      if (certificate_id x <=? certificate_id r)%Z
      then r :: x :: sorted'
      else x :: insert_desc r sorted'
  end.

Fixpoint order_by_certificate_id_desc (rs : list Identity)
  : list Identity :=
  match rs with
  | [] => []
  | r :: rs' => insert_desc r (order_by_certificate_id_desc rs')
  end.

Definition LIKE (s pattern : string) : bool :=
  like_match (list_ascii_of_string pattern) (list_ascii_of_string s).

Definition limit_negative : error :=
  errors_New "pq: LIMIT must not be negative".

(** [LIMIT n]: at most [n] rows; a negative [n] is an error of the
    server. *)
Definition LIMIT {A} (n : Z) (rs : list A) : list A + error :=
  if (n <? 0)%Z then inr limit_negative else inl (firstn (Z.to_nat n) rs).

End sql.

(** ** The outside world *)

(** What one run meets outside the program.  The [*_err] fields are what the
    driver calls return ([None] for [nil]).  [Next_err i] is the error that
    makes [rows.Next] return [false] at position [i] of the cursor although
    a row is left there (a read error, a cancelled context); it is kept for
    [rows.Err], and [rows.Next] closes the cursor.  [Scan_err i] is the
    outcome of [rows.Scan] on the row at position [i].  [rows_Close_err] is
    what closing an open cursor returns; [rows.Close] on a cursor that
    [rows.Next] has closed returns [nil].  [Write_err i] is the outcome of
    writing the PEM text of the certificate at position [i]: [pem.Encode]
    writes a block in several pieces, and [Some (n, e)] is a write that
    fails with [e] after [n] characters have gone out. *)
Record Env : Type := {
  certificate_and_identities : list Identity;
  (** the rows of the aggregated [SELECT] for a search term, in its
      [ORDER BY] order, before [LIMIT] is applied *)
  issuances : string -> list Issuance;
  Open_err : option error;
  db_Close_err : option error;
  Prepare_err : option error;
  stmt_Close_err : option error;
  Query_err : option error;
  Columns_err : option error;
  rows_Close_err : option error;
  Next_err : nat -> option error;
  Scan_err : nat -> option error;
  Write_err : nat -> option (nat * error)
}.

(** Calls that reach the database driver, in the order made. *)
Inductive Call : Type :=
| sql_Open (dataSourceName : string)
| db_Close
| db_PrepareContext
| stmt_Close
| QueryContext (domainName : string) (limit : Z)
| rows_Columns
| rows_Close.

(** [x509.Certificate], the two fields that are read. *)
Record Certificate : Type := {
  Subject_CommonName : string;
  NotBefore : Z
}.

(** Lines written to the standard logger (the error stream). *)
Inductive LogLine : Type :=
| Println_row (r : Issuance)                     (* main.go:105 *)
| Println_certs (certs : list string)            (* main.go:154 *)
| Printf_type (e : error)                        (* main.go:67 *)
| Printf_entry (CommonName : string) (NotBefore : Z)  (* direct, line 117 *)
| PEM_block (text : list ascii)                  (* direct, line 120 *)
| Fatal (e : error)                              (* log.Fatal in main *)
| Usage_text (text : string)                     (* fmt.Fprint in Usage *)
| PrintDefaults.                                 (* flag defaults in Usage *)

Record World : Type := { calls : list Call; out : list LogLine }.

Definition start : World := {| calls := []; out := [] |}.

(** A small state monad over [World]. *)
Definition M (A : Type) : Type := World -> A * World.

Definition ret {A} (a : A) : M A := fun w => (a, w).

Definition bind {A B} (m : M A) (k : A -> M B) : M B :=
  fun w => let r := m w in k (fst r) (snd r).

Notation "x <- m ;; k" := (bind m (fun x => k))
  (at level 61, m at next level, right associativity).
Notation "m ;;; k" := (bind m (fun _ => k))
  (at level 61, right associativity).

Definition call (c : Call) : M unit :=
  fun w => (tt, {| calls := calls w ++ [c]; out := out w |}).

Definition log (l : LogLine) : M unit :=
  fun w => (tt, {| calls := calls w; out := out w ++ [l] |}).

(** [defer d] around a body: the body runs to its [return], then [d] runs on
    the frame the body left. *)
Definition defer {F} (d : F -> M F) (body : M F) : M F :=
  fr <- body ;; d fr.

(** The function that [run] stores in [flag.CommandLine.Usage] (the same in
    both variants): the usage text for the program name [os.Args[0]], then
    the defaults of the flags.  Only [flag.Parse] calls it, when the flags
    do not parse or help is asked for. *)
Definition Usage (program : string) : M unit :=
  log (Usage_text
         (program ++ " from its domain name by querying crt.sh"
          ++ String nl (String nl "Usage: ") ++ program
          ++ " [flags] <domain name>"
          ++ String nl "Ex: " ++ program
          ++ " github.com // print all current certificates "
          ++ String nl (String nl "Flags:"))%string) ;;;
  log PrintDefaults.

(** The lines that [Usage] writes. *)
Definition is_usage (l : LogLine) : bool :=
  match l with
  | Usage_text _ | PrintDefaults => true
  | _ => false
  end.

(** The lines that report a row or a certificate, one for each. *)
Definition is_entry (l : LogLine) : bool :=
  match l with
  | Println_row _ | Printf_entry _ _ => true
  | _ => false
  end.

Definition entries (w : World) : list LogLine := filter is_entry (out w).

(** The flag set after [flag.Parse]: [-v], [-n], [-pem] (direct variant
    only) and the positional arguments.  [flag.Parse] itself ends the
    process on an unknown flag or on [-h]; [run] is modelled from the point
    where it has returned.  The listener for the interrupt and terminate
    signals runs in a goroutine of its own and is not part of the
    sequential model: a cancelled query is one whose driver call returns an
    error. *)
Record Flags : Type := {
  verbose : bool;
  limit : Z;
  printPEM : bool;
  Args : list string
}.

(** ** The direct variant *)

Module Direct.

(** The statement text
    [SELECT certificate FROM certificate_and_identities
     WHERE name_value LIKE $1 ORDER BY certificate_id DESC LIMIT $2;]
    read clause by clause over the table, with [$1] and [$2] the two
    parameters. *)
Definition certificateQuery (table : list Identity) (p1 : string) (p2 : Z)
  : list bytes + error :=
  match
    sql.LIMIT p2
      (sql.order_by_certificate_id_desc
         (filter (fun r => sql.LIKE (name_value r) p1) table))
  with
  | inl rs => inl (map certificate rs)
  | inr e => inr e
  end.

Definition errExpectedArguments : error :=
  errors_New "expected 1 argument: domain name".

Section Program.

(** [multierror.Append(err, errs...)], from the module
    github.com/simplylib/multierror. *)
Variable multierror_Append : option error -> list (option error) -> option error.

(** [x509.ParseCertificate] *)
Variable x509_ParseCertificate : bytes -> Certificate + error.

Variable env : Env.

(** [db.QueryContext(ctx, certificateQuery, domainName, limit)]: the
    call fails in the driver, or the server runs the statement and the
    cursor holds its rows. *)
Definition db_QueryContext (domainName : string) (limit : Z)
  : M (list bytes + error) :=
  call (QueryContext domainName limit) ;;;
  ret (match Query_err env with
       | Some e => inr e
       | None =>
           certificateQuery (certificate_and_identities env)
                            domainName limit
       end).

(** The loop [for rows.Next() { err = rows.Scan(&der); ... }] of lines
    52-61, with [i] the position in the cursor, [rows] what the cursor
    still holds and [ders] the slice built so far.  The result is the pair
    given to [return], and whether the cursor is still open: the loop ends
    when [rows.Next] returns [false], at the end of the rows or on an error
    of its own, and [rows.Err] is not read; [rows.Next] has then closed the
    cursor.  A [return] from inside the loop leaves it open. *)
Fixpoint scanRows (i : nat) (rows : list bytes) (ders : list bytes)
  : (list bytes * option error) * bool :=
  match rows with
  | [] => ((ders, None), false)
  | der :: rows' =>
      match Next_err env i with
      | Some _ => ((ders, None), false)
      | None =>
          match Scan_err env i with
          | Some e =>
              (([], Some (fmt_Errorf "could not scan row (%w)" [] e)), true)
          | None => scanRows (S i) rows' (ders ++ [der])
          end
      end
  end.

(** [rows.Close()] on a cursor that is open, or already closed. *)
Definition rows_Close_result (open : bool) : option error :=
  if open then rows_Close_err env else None.

(** [getCertificates]: the results [certs] and [err] are named, so the
    deferred closures assign to the value that is returned. *)
Definition getCertificates (domainName : string) (limit : Z)
  : M (list bytes * option error) :=
  call (sql_Open "host=crt.sh user=guest dbname=certwatch binary_parameters=yes") ;;;
  match Open_err env with
  | Some e =>
      ret ([], Some (fmt_Errorf
        "could not open SQL connection to postgres at crt.sh due to error (%w)"
        [] e))
  | None =>
      defer (fun fr =>                                   (* lines 28-32 *)
               call db_Close ;;;
               match db_Close_err env with
               | Some err2 =>
                   ret (fst fr, multierror_Append (snd fr) [Some err2])
               | None => ret fr
               end)
        (r <- db_QueryContext domainName limit ;;
         match r with
         | inr e =>
             ret ([], Some (fmt_Errorf
               "could not execute SQL on postgres for finding certificates (%w)"
               [] e))
         | inl rows =>
             let scanned := scanRows 0 rows [] in
             defer (fun fr =>                            (* lines 44-46 *)
                      call rows_Close ;;;
                      ret (fst fr,
                           multierror_Append (snd fr)
                             [rows_Close_result (snd scanned)]))
               (ret (fst scanned))
         end)
  end.

Definition CERTIFICATE : list ascii := list_ascii_of_string "CERTIFICATE".

(** The loop of lines 111-128 over the returned certificates; [i] is the
    position of [der] in the slice.  What [pem.Encode] got out to the log
    writer before a write failed is in the log. *)
Fixpoint printCertificates (printPEM : bool) (i : nat) (ders : list bytes)
  : M (option error) :=
  match ders with
  | [] => ret None
  | der :: ders' =>
      match x509_ParseCertificate der with
      | inr e =>
          ret (Some (fmt_Errorf "could not parse x509 certificate (%w)" [] e))
      | inl cert =>
          log (Printf_entry (Subject_CommonName cert) (NotBefore cert)) ;;;
          if printPEM then
            match Write_err env i with
            | Some (n, e) =>
                log (PEM_block
                       (firstn n
                          (pem.Encode {| pem.Type_ := CERTIFICATE;
                                         pem.Bytes := der |}))) ;;;
                ret (Some (fmt_Errorf "could not encode PEM (%w)" [] e))
            | None =>
                log (PEM_block
                       (pem.Encode {| pem.Type_ := CERTIFICATE;
                                      pem.Bytes := der |})) ;;;
                printCertificates printPEM (S i) ders'
            end
          else printCertificates printPEM (S i) ders'
      end
  end.

(** [run], after [flag.Parse]. *)
Definition run (f : Flags) : M (option error) :=
  if negb (Nat.eqb (List.length (Args f)) 1) then
    ret (Some errExpectedArguments)
  else
    let domainName := nth 0 (Args f) "" in
    r <- getCertificates domainName (limit f) ;;
    match snd r with
    | Some e =>
        ret (Some (fmt_Errorf
          "could not getCertificates of (%v) error (%w)" [domainName] e))
    | None => printCertificates (printPEM f) 0 (fst r)
    end.

(** [main]: the exit status and the final world. *)
Definition main (f : Flags) : M Z :=
  err <- run f ;;
  match err with
  | Some e => log (Fatal e) ;;; ret 1%Z
  | None => ret 0%Z
  end.

End Program.

End Direct.

(** ** The aggregated variant ([main.go]) *)

Module Aggregated.

(** The statement of lines 18-52.  Its full-text search, grouping and
    joins run on the server and are summarised by [issuances]; the last
    clause, [LIMIT $2], is applied to that result. *)
Definition certificateQuery (matches : string -> list Issuance)
    (p1 : string) (p2 : Z) : list Issuance + error :=
  sql.LIMIT p2 (matches p1).

Definition errExpectedArguments : error :=
  errors_New "expected 1 argument: domain name".

(** The function frame of [getCertificates]: the results are unnamed, so
    the local variable [err] and the values given to [return] are
    different storage.  [rows_open] is the state of the cursor [rows] when
    the body is left: open after a [rows.Scan] that failed, closed once
    [rows.Next] has returned [false], and closed when [rows.Columns] has
    failed, which it does on a closed cursor only. *)
Record Frame : Type := {
  err : option error;
  results : list string * option error;
  rows_open : bool
}.

Section Program.

Variable multierror_Append : option error -> list (option error) -> option error.

Variable env : Env.

Definition stmt_QueryContext (domainName : string) (limit : Z)
  : M (list Issuance + error) :=
  call (QueryContext domainName limit) ;;;
  ret (match Query_err env with
       | Some e => inr e
       | None => certificateQuery (issuances env) domainName limit
       end).

(** The loop of lines 99-106; every scanned row is logged at once.  The
    loop ends when [rows.Next] returns [false], at the end of the rows or on
    an error of its own; [rows.Err] is not read, and line 108 returns
    [nil, nil]. *)
Fixpoint scanRows (i : nat) (rows : list Issuance) : M Frame :=
  match rows with
  | [] => ret {| err := None; results := ([], None); rows_open := false |}
  | row :: rows' =>
      match Next_err env i with
      | Some _ =>
          ret {| err := None; results := ([], None); rows_open := false |}
      | None =>
          match Scan_err env i with
          | Some e =>
              ret {| err := Some e;
                     results :=
                       ([], Some (fmt_Errorf "could not scan row (%w)" [] e));
                     rows_open := true |}
          | None => log (Println_row row) ;;; scanRows (S i) rows'
          end
      end
  end.

(** [rows.Close()] on a cursor that is open, or already closed. *)
Definition rows_Close_result (open : bool) : option error :=
  if open then rows_Close_err env else None.

Definition getCertificates (domainName : string) (limit : Z)
  : M (list string * option error) :=
  call (sql_Open "host=crt.sh user=guest dbname=certwatch") ;;;
  fr <-
    match Open_err env with
    | Some e =>
        ret {| err := Some e;
               results := ([], Some (fmt_Errorf
                 "could not open SQL connection to postgres at crt.sh due to error (%w)"
                 [] e));
               rows_open := false |}
    | None =>
        defer (fun fr =>                                 (* lines 59-63 *)
                 call db_Close ;;;
                 match db_Close_err env with
                 | Some err2 =>
                     ret {| err := multierror_Append (err fr) [Some err2];
                            results := results fr;
                            rows_open := rows_open fr |}
                 | None => ret fr
                 end)
          (call db_PrepareContext ;;;
           match Prepare_err env with
           | Some e =>
               log (Printf_type e) ;;;
               ret {| err := Some e;
                      results := ([], Some (fmt_Errorf
                        "could not prepare SQL query (%w)" [] e));
                      rows_open := false |}
           | None =>
               defer (fun fr =>                          (* lines 70-72 *)
                        call stmt_Close ;;;
                        ret {| err := multierror_Append (err fr)
                                        [stmt_Close_err env];
                               results := results fr;
                               rows_open := rows_open fr |})
                 (r <- stmt_QueryContext domainName limit ;;
                  match r with
                  | inr e =>
                      ret {| err := Some e;
                             results := ([], Some (fmt_Errorf
                               "could not execute SQL on postgres for finding certificates (%w)"
                               [] e));
                             rows_open := false |}
                  | inl rows =>
                      defer (fun fr =>                   (* lines 78-80 *)
                               call rows_Close ;;;
                               ret {| err := multierror_Append (err fr)
                                               [rows_Close_result
                                                  (rows_open fr)];
                                      results := results fr;
                                      rows_open := false |})
                        (call rows_Columns ;;;
                         match Columns_err env with
                         | Some e =>
                             ret {| err := Some e;
                                    results := ([], Some (fmt_Errorf
                                      "could not get columns (%w)" [] e));
                                    rows_open := false |}
                         | None => scanRows 0 rows
                         end)
                  end)
           end)
    end ;;
  ret (results fr).

(** [run], after [flag.Parse]. *)
Definition run (f : Flags) : M (option error) :=
  if negb (Nat.eqb (List.length (Args f)) 1) then
    ret (Some errExpectedArguments)
  else
    let domainName := nth 0 (Args f) "" in
    r <- getCertificates domainName (limit f) ;;
    match snd r with
    | Some e =>
        ret (Some (fmt_Errorf
          "could not getCertificates of (%v) error (%w)" [domainName] e))
    | None => log (Println_certs (fst r)) ;;; ret None
    end.

Definition main (f : Flags) : M Z :=
  err <- run f ;;
  match err with
  | Some e => log (Fatal e) ;;; ret 1%Z
  | None => ret 0%Z
  end.

End Program.

End Aggregated.

(** ** github.com/simplylib/multierror

    Modelled from the spec: the module github.com/simplylib/multierror is
    not among the sources.  The programs above take [Append] as a parameter;
    this instance is the container the specification describes, one that
    accumulates the errors that are not [nil] and is itself [nil] when there
    are none.  It instantiates the statements below at concrete inputs. *)

Module multierror.

Fixpoint nonNil (errs : list (option error)) : list error :=
  match errs with
  | [] => []
  | Some e :: errs' => e :: nonNil errs'
  | None :: errs' => nonNil errs'
  end.

Definition Append (err : option error) (errs : list (option error))
  : option error :=
  match err, nonNil errs with
  | None, [] => None
  | None, es => Some (multiError es)
  | Some (multiError es0), es => Some (multiError (es0 ++ es))
  | Some e, es => Some (multiError (e :: es))
  end.

End multierror.

(** ** Vocabulary of the statements *)

(** An [Append] that never turns an error into [nil]. *)
Definition keeps_errors
    (Append : option error -> list (option error) -> option error) : Prop :=
  forall e errs, Append (Some e) errs <> None.

(** An [Append] that makes no error out of [nil]. *)
Definition nil_of_nils
    (Append : option error -> list (option error) -> option error) : Prop :=
  Append None [None] = None.

(** The cursor the direct query opens: what [db.QueryContext] answers. *)
Definition Direct_cursor (env : Env) (d : string) (L : Z) : list bytes + error :=
  match Query_err env with
  | Some e => inr e
  | None => Direct.certificateQuery (certificate_and_identities env) d L
  end.

(** The cursor the prepared statement opens. *)
Definition Aggregated_cursor (env : Env) (d : string) (L : Z)
  : list Issuance + error :=
  match Query_err env with
  | Some e => inr e
  | None => Aggregated.certificateQuery (issuances env) d L
  end.

(** The line [run] logs for a certificate that parses. *)
Definition entry_of (parse : bytes -> Certificate + error) (der : bytes)
  : option LogLine :=
  match parse der with
  | inl cert => Some (Printf_entry (Subject_CommonName cert) (NotBefore cert))
  | inr _ => None
  end.

(** How the loop over a cursor ends before the last row: [rows.Next]
    returns [false] with an error pending, or [rows.Scan] fails. *)
Inductive Stop : Type :=
| Next_failed (e : error)
| Scan_failed (e : error).

(** The first position, among the [n] rows from position [i] on, at which
    [rows.Next] or [rows.Scan] fails, and which of the two. *)
Fixpoint first_stop (env : Env) (i n : nat) : option (nat * Stop) :=
  match n with
  | O => None
  | S n' =>
      match Next_err env i with
      | Some e => Some (i, Next_failed e)
      | None =>
          match Scan_err env i with
          | Some e => Some (i, Scan_failed e)
          | None => first_stop env (S i) n'
          end
      end
  end.

(** No driver call and no write fails. *)
Definition healthy (env : Env) : Prop :=
  Open_err env = None /\ db_Close_err env = None /\ Prepare_err env = None
  /\ stmt_Close_err env = None /\ Query_err env = None
  /\ Columns_err env = None /\ rows_Close_err env = None
  /\ (forall i, Scan_err env i = None) /\ (forall i, Write_err env i = None)
  /\ (forall i, Next_err env i = None).

(** The driver calls of one [getCertificates] of the direct variant: the
    connection is closed once when it was opened, the cursor once when the
    query opened one. *)
Definition Direct_trace (env : Env) (d : string) (L : Z) : list Call :=
  sql_Open "host=crt.sh user=guest dbname=certwatch binary_parameters=yes"
  :: match Open_err env with
     | Some _ => []
     | None =>
         QueryContext d L
         :: match Direct_cursor env d L with
            | inl _ => [rows_Close; db_Close]
            | inr _ => [db_Close]
            end
     end.

(** The driver calls of one [getCertificates] of the aggregated variant. *)
Definition Aggregated_trace (env : Env) (d : string) (L : Z) : list Call :=
  sql_Open "host=crt.sh user=guest dbname=certwatch"
  :: match Open_err env with
     | Some _ => []
     | None =>
         db_PrepareContext
         :: match Prepare_err env with
            | Some _ => [db_Close]
            | None =>
                QueryContext d L
                :: match Aggregated_cursor env d L with
                   | inl _ => [rows_Columns; rows_Close; stmt_Close; db_Close]
                   | inr _ => [stmt_Close; db_Close]
                   end
            end
     end.

(** The direct statement as the specification words it: a row is eligible
    when its [name_value] contains the domain name. *)
Definition certificateQuery_substring (table : list Identity) (p1 : string)
    (p2 : Z) : list bytes + error :=
  match
    sql.LIMIT p2
      (sql.order_by_certificate_id_desc
         (filter (fun r => gobytes.Contains
                             (list_ascii_of_string (name_value r))
                             (list_ascii_of_string p1)) table))
  with
  | inl rs => inl (map certificate rs)
  | inr e => inr e
  end.

(** A character that [LIKE] reads as itself. *)
Definition literal (c : ascii) : bool :=
  negb (Ascii.eqb c "%"%char || Ascii.eqb c "_"%char || Ascii.eqb c "\"%char).

(** A domain name without [LIKE] metacharacters. *)
Definition plain (d : string) : bool :=
  forallb literal (list_ascii_of_string d).

(** Descending order of [certificate_id]. *)
Definition descending : list Identity -> Prop :=
  Sorted (fun a b => (certificate_id b <= certificate_id a)%Z).

(** ** Vocabulary of the PEM round trip *)

(** Characters of a base64 body: no line end, blank, colon or dash. *)
Definition body_char (c : ascii) : bool :=
  negb (base64.is_newline c) && negb (gobytes.is_space_or_tab c)
  && negb (Ascii.eqb c ":"%char) && negb (Ascii.eqb c "-"%char).

(** The same without the padding character: the base64 alphabet lies in
    here. *)
Definition alphabetic (c : ascii) : bool :=
  negb (base64.is_newline c) && negb (gobytes.is_space_or_tab c)
  && negb (Ascii.eqb c ":"%char) && negb (Ascii.eqb c "-"%char)
  && negb (Ascii.eqb c base64.padChar).

(** What [lineBreaker] writes before its last line feed. *)
Fixpoint broken_lines (used : nat) (s : list ascii) : list ascii :=
  match s with
  | [] => []
  | c :: s' =>
      if Nat.eqb (S used) pem.pemLineLength
      then match s' with
           | [] => [c]
           | _ :: _ => c :: nl :: broken_lines 0 s'
           end
      else c :: broken_lines (S used) s'
  end.

(** Text in which every line feed is followed by a character other than a
    dash: no end marker starts inside it. *)
Fixpoint no_end_marker (a : list ascii) : bool :=
  match a with
  | [] => true
  | c :: a' =>
      (negb (Ascii.eqb c nl)
       || match a' with
          | [] => false
          | d :: _ => negb (Ascii.eqb d "-"%char)
          end)
      && no_end_marker a'
  end.

(** The type line and the end of the closing line of a CERTIFICATE block. *)
Definition CERTIFICATE_line : list ascii :=
  Direct.CERTIFICATE ++ pem.pemEndOfLine.

(** ** Example inputs *)

Definition github_com : string := "github.com".

Definition identity_www : Identity :=
  {| certificate_id := 9; name_value := "www.github.com";
     certificate := [Byte.x30; Byte.x03] |}.

Definition identity_apex : Identity :=
  {| certificate_id := 5; name_value := "github.com";
     certificate := [Byte.x30; Byte.x02] |}.

Definition identity_old : Identity :=
  {| certificate_id := 2; name_value := "github.com";
     certificate := [] |}.

Definition issuance_1 : Issuance :=
  {| ISSUER_CA_ID := "185752"; ISSUER_NAME := "C=US, O=DigiCert Inc";
     NAME_VALUE := "github.com"; ID := "9"; ENTRY_TIMESTAMP := "2024-03-07";
     NOT_BEFORE := "2024-03-07"; NOT_AFTER := "2025-03-07";
     SERIAL_NUMBER := "0a" |}.

Definition issuance_2 : Issuance :=
  {| ISSUER_CA_ID := "185752"; ISSUER_NAME := "C=US, O=DigiCert Inc";
     NAME_VALUE := "www.github.com"; ID := "5"; ENTRY_TIMESTAMP := "2023-02-14";
     NOT_BEFORE := "2023-02-14"; NOT_AFTER := "2024-03-14";
     SERIAL_NUMBER := "0b" |}.

(** A server that holds three identities and two issuances, reached through
    a driver that never fails. *)
Definition crt_sh : Env :=
  {| certificate_and_identities := [identity_old; identity_www; identity_apex];
     issuances := fun _ => [issuance_1; issuance_2];
     Open_err := None; db_Close_err := None; Prepare_err := None;
     stmt_Close_err := None; Query_err := None; Columns_err := None;
     rows_Close_err := None;
     Next_err := fun _ => None;
     Scan_err := fun _ => None; Write_err := fun _ => None |}.

(** The same server with no matching row at all. *)
Definition crt_sh_empty : Env :=
  {| certificate_and_identities := [];
     issuances := fun _ => [];
     Open_err := None; db_Close_err := None; Prepare_err := None;
     stmt_Close_err := None; Query_err := None; Columns_err := None;
     rows_Close_err := None;
     Next_err := fun _ => None;
     Scan_err := fun _ => None; Write_err := fun _ => None |}.

(** The server of [crt_sh_empty] behind a driver whose [Close] calls fail:
    [db.Close], [stmt.Close], and [rows.Close] on a cursor that is still
    open. *)
Definition close_fails (e_rows e_stmt e_db : error) : Env :=
  {| certificate_and_identities := [];
     issuances := fun _ => [];
     Open_err := None; db_Close_err := Some e_db; Prepare_err := None;
     stmt_Close_err := Some e_stmt; Query_err := None; Columns_err := None;
     rows_Close_err := Some e_rows;
     Next_err := fun _ => None;
     Scan_err := fun _ => None; Write_err := fun _ => None |}.

(** The same, with a query that fails as well. *)
Definition query_and_close_fail (e_query e_stmt e_db : error) : Env :=
  {| certificate_and_identities := [];
     issuances := fun _ => [];
     Open_err := None; db_Close_err := Some e_db; Prepare_err := None;
     stmt_Close_err := Some e_stmt; Query_err := Some e_query;
     Columns_err := None; rows_Close_err := None;
     Next_err := fun _ => None;
     Scan_err := fun _ => None; Write_err := fun _ => None |}.

(** The server of [crt_sh] when the second row of a cursor does not scan. *)
Definition second_scan_fails : Env :=
  {| certificate_and_identities := [identity_old; identity_www; identity_apex];
     issuances := fun _ => [issuance_1; issuance_2];
     Open_err := None; db_Close_err := None; Prepare_err := None;
     stmt_Close_err := None; Query_err := None; Columns_err := None;
     rows_Close_err := None; Next_err := fun _ => None;
     Scan_err := fun i => match i with
                          | 1%nat => Some (errors_New "sql: Scan error on column index 4")
                          | _ => None
                          end;
     Write_err := fun _ => None |}.

(** A parser that rejects the empty byte string and reads any other as a
    certificate of github.com. *)
Definition parse_nonempty (der : bytes) : Certificate + error :=
  match der with
  | [] => inr (errors_New "x509: malformed certificate")
  | _ => inl {| Subject_CommonName := "github.com"; NotBefore := 1709769600 |}
  end.

Definition flags (n : Z) (args : list string) : Flags :=
  {| verbose := false; limit := n; printPEM := false; Args := args |}.

(** The error of a cancelled context. *)
Definition context_Canceled : error := errors_New "context canceled".

(** The server of [crt_sh] when the context is cancelled (Ctrl+C) after the
    first row of a cursor has been read: [rows.Next] returns [false] with
    the context's error pending. *)
Definition cancelled_after_first_row : Env :=
  {| certificate_and_identities := [identity_old; identity_www; identity_apex];
     issuances := fun _ => [issuance_1; issuance_2];
     Open_err := None; db_Close_err := None; Prepare_err := None;
     stmt_Close_err := None; Query_err := None; Columns_err := None;
     rows_Close_err := None;
     Next_err := fun i => match i with
                          | 1%nat => Some context_Canceled
                          | _ => None
                          end;
     Scan_err := fun _ => None; Write_err := fun _ => None |}.

(** The same server when the context is cancelled before the query is
    sent: [QueryContext] returns the context's error. *)
Definition cancelled_before_query : Env :=
  {| certificate_and_identities := [identity_old; identity_www; identity_apex];
     issuances := fun _ => [issuance_1; issuance_2];
     Open_err := None; db_Close_err := None; Prepare_err := None;
     stmt_Close_err := None; Query_err := Some context_Canceled;
     Columns_err := None; rows_Close_err := None;
     Next_err := fun _ => None;
     Scan_err := fun _ => None; Write_err := fun _ => None |}.

(** ** Vocabulary of the further properties *)

(** What [getCertificates] of [main.go] comes to: the error it returns and
    the lines it has logged, read off the first step that fails. *)
Definition Aggregated_outcome (env : Env) (d : string) (L : Z)
  : option error * list LogLine :=
  match Open_err env with
  | Some e =>
      (Some (fmt_Errorf
         "could not open SQL connection to postgres at crt.sh due to error (%w)"
         [] e), [])
  | None =>
      match Prepare_err env with
      | Some e =>
          (Some (fmt_Errorf "could not prepare SQL query (%w)" [] e),
           [Printf_type e])
      | None =>
          match Aggregated_cursor env d L with
          | inr e =>
              (Some (fmt_Errorf
                 "could not execute SQL on postgres for finding certificates (%w)"
                 [] e), [])
          | inl rows =>
              match Columns_err env with
              | Some e =>
                  (Some (fmt_Errorf "could not get columns (%w)" [] e), [])
              | None =>
                  match first_stop env 0 (List.length rows) with
                  | Some (k, Scan_failed e) =>
                      (Some (fmt_Errorf "could not scan row (%w)" [] e),
                       map Println_row (firstn k rows))
                  | Some (k, Next_failed _) =>
                      (None, map Println_row (firstn k rows))
                  | None => (None, map Println_row rows)
                  end
              end
          end
      end
  end.

(** An [Append] that makes an error out of a single one. *)
Definition reports_errors
    (Append : option error -> list (option error) -> option error) : Prop :=
  forall e, Append None [Some e] <> None.

(** A certificate that [x509.ParseCertificate] accepts. *)
Definition parses (parse : bytes -> Certificate + error) (der : bytes) : Prop :=
  exists cert, parse der = inl cert.

(** The lines [run] logs for one certificate: its entry and, with [-pem],
    its PEM block. *)
Definition certificate_lines (parse : bytes -> Certificate + error)
    (printPEM : bool) (der : bytes) : list LogLine :=
  match parse der with
  | inl cert =>
      Printf_entry (Subject_CommonName cert) (NotBefore cert)
      :: (if printPEM
          then [PEM_block (pem.Encode {| pem.Type_ := Direct.CERTIFICATE;
                                         pem.Bytes := der |})]
          else [])
  | inr _ => []
  end.

(** The server of [crt_sh] behind a driver whose [db.Close] fails. *)
Definition crt_sh_close_fails : Env :=
  {| certificate_and_identities := [identity_old; identity_www; identity_apex];
     issuances := fun _ => [issuance_1; issuance_2];
     Open_err := None;
     db_Close_err := Some (errors_New "pq: connection reset");
     Prepare_err := None;
     stmt_Close_err := None; Query_err := None; Columns_err := None;
     rows_Close_err := None;
     Next_err := fun _ => None;
     Scan_err := fun _ => None; Write_err := fun _ => None |}.

(** The server of [crt_sh] when the second PEM block cannot be written. *)
Definition second_write_fails : Env :=
  {| certificate_and_identities := [identity_old; identity_www; identity_apex];
     issuances := fun _ => [issuance_1; issuance_2];
     Open_err := None; db_Close_err := None; Prepare_err := None;
     stmt_Close_err := None; Query_err := None; Columns_err := None;
     rows_Close_err := None;
     Next_err := fun _ => None; Scan_err := fun _ => None;
     Write_err := fun i => match i with
                           | 1%nat =>
                               Some (28%nat, errors_New "write: broken pipe")
                           | _ => None
                           end |}.

(** A parser that accepts every byte string. *)
Definition parse_any (der : bytes) : Certificate + error :=
  inl {| Subject_CommonName := "github.com"; NotBefore := 1709769600 |}.

(** * Properties *)

(** ** Worlds and log lines *)

Lemma entries_log (l : LogLine) (w : World) :
  entries (snd (log l w)) = entries w ++ (if is_entry l then [l] else []).
Proof.
  unfold entries, log; simpl. rewrite filter_app; simpl.
  destruct (is_entry l); reflexivity.
Qed.

(** ** LIMIT *)

Lemma LIMIT_length {A} (n : Z) (rs rs' : list A) :
  sql.LIMIT n rs = inl rs' -> (List.length rs' <= Z.to_nat n)%nat.
Proof.
  unfold sql.LIMIT. destruct (n <? 0)%Z; [discriminate|].
  intros H; injection H as <-. apply firstn_le_length.
Qed.

Lemma LIMIT_nonneg {A} (n : Z) (rs : list A) :
  (0 <= n)%Z -> sql.LIMIT n rs = inl (firstn (Z.to_nat n) rs).
Proof.
  intros Hn. unfold sql.LIMIT.
  destruct (Z.ltb_spec n 0); [lia | reflexivity].
Qed.

Lemma Direct_certificateQuery_length table d L rows :
  Direct.certificateQuery table d L = inl rows ->
  (List.length rows <= Z.to_nat L)%nat.
Proof.
  unfold Direct.certificateQuery.
  destruct (sql.LIMIT L _) as [rs|e] eqn:E; [|discriminate].
  intros H; injection H as <-. rewrite length_map.
  eapply LIMIT_length; eassumption.
Qed.

(** ** The direct variant: the scan loop *)

Section DirectFacts.

Variable Append : option error -> list (option error) -> option error.
Variable parse : bytes -> Certificate + error.
Variable env : Env.

Lemma first_stop_none n : forall i,
  (forall j, Next_err env j = None) -> (forall j, Scan_err env j = None) ->
  first_stop env i n = None.
Proof.
  induction n as [|n IH]; intros i HN HS; simpl; [reflexivity|].
  rewrite HN, HS. now apply IH.
Qed.

Lemma first_stop_some n : forall i k s,
  first_stop env i n = Some (k, s) ->
  (i <= k < i + n)%nat
  /\ match s with
     | Next_failed e => Next_err env k = Some e
     | Scan_failed e => Next_err env k = None /\ Scan_err env k = Some e
     end
  /\ forall j, (i <= j < k)%nat ->
       Next_err env j = None /\ Scan_err env j = None.
Proof.
  induction n as [|n IH]; intros i k s; simpl; [discriminate|].
  destruct (Next_err env i) as [e|] eqn:N.
  { intros H; injection H as <- <-. repeat split; auto; lia. }
  destruct (Scan_err env i) as [e|] eqn:E.
  { intros H; injection H as <- <-. repeat split; auto; lia. }
  intros H. apply IH in H as (Hk & Hs & Hb).
  split; [lia|]. split; [exact Hs|].
  intros j Hj. destruct (Nat.eq_dec j i) as [->|]; [auto|].
  apply Hb. lia.
Qed.

(** The scan loop read off the first position at which it stops. *)
Lemma Direct_scanRows_outcome rows : forall i ders,
  Direct.scanRows env i rows ders
  = match first_stop env i (List.length rows) with
    | Some (k, Scan_failed e) =>
        ([], Some (fmt_Errorf "could not scan row (%w)" [] e), true)
    | Some (k, Next_failed _) => (ders ++ firstn (k - i) rows, None, false)
    | None => (ders ++ rows, None, false)
    end.
Proof.
  induction rows as [|der rows IH]; intros i ders; simpl.
  - now rewrite app_nil_r.
  - destruct (Next_err env i) as [e|].
    { now rewrite Nat.sub_diag, app_nil_r. }
    destruct (Scan_err env i) as [e|]; [reflexivity|].
    rewrite IH.
    destruct (first_stop env (S i) (List.length rows)) as [[k [e|e]]|] eqn:F;
      rewrite <- ?app_assoc; try reflexivity.
    apply first_stop_some in F as (Hk & _).
    replace (k - i)%nat with (S (k - S i)) by lia. reflexivity.
Qed.

Lemma Direct_scanRows_cases rows : forall i ders,
  (exists k, (k <= List.length rows)%nat
             /\ Direct.scanRows env i rows ders
                = (ders ++ firstn k rows, None, false)
             /\ ((forall j, Next_err env j = None) -> k = List.length rows))
  \/ exists e, Direct.scanRows env i rows ders = ([], Some e, true).
Proof.
  intros i ders. rewrite Direct_scanRows_outcome.
  destruct (first_stop env i (List.length rows)) as [[k [e|e]]|] eqn:F.
  - left. exists (k - i)%nat. apply first_stop_some in F as (Hk & Hs & _).
    repeat split; [lia|]. intros HN. rewrite HN in Hs. discriminate.
  - right. eauto.
  - left. exists (List.length rows). now rewrite firstn_all.
Qed.

Lemma Direct_scanRows_ok rows : forall i ders,
  (forall j, Next_err env j = None) ->
  (forall j, Scan_err env j = None) ->
  Direct.scanRows env i rows ders = (ders ++ rows, None, false).
Proof.
  intros i ders HN HS.
  now rewrite Direct_scanRows_outcome, first_stop_none.
Qed.

(** The slice [getCertificates] returns is a prefix of the cursor. *)
Lemma Direct_getCertificates_certs d L w :
  let certs := fst (fst (Direct.getCertificates Append env d L w)) in
  certs = []
  \/ exists rows k, Direct_cursor env d L = inl rows
                    /\ certs = firstn k rows
                    /\ ((forall j, Next_err env j = None) -> certs = rows).
Proof.
  unfold Direct_cursor, Direct.getCertificates, Direct.db_QueryContext,
    defer, bind, ret, call; simpl.
  destruct (Open_err env); simpl; [now left|].
  destruct (Query_err env); simpl.
  - destruct (db_Close_err env); simpl; now left.
  - destruct (Direct.certificateQuery _ d L) as [rows|e]; simpl.
    + destruct (Direct_scanRows_cases rows 0 []) as [(k & Hk & H & Hall)|[e H]];
        rewrite H; destruct (db_Close_err env); simpl; auto;
        right; exists rows, k; repeat split; auto;
        intros HN; rewrite (Hall HN); apply firstn_all.
    + destruct (db_Close_err env); simpl; now left.
Qed.

Lemma Direct_getCertificates_success d L w certs w' :
  keeps_errors Append ->
  Direct.getCertificates Append env d L w = (certs, None, w') ->
  exists rows k,
    Direct_cursor env d L = inl rows
    /\ (k <= List.length rows)%nat
    /\ certs = firstn k rows
    /\ Direct.scanRows env 0 rows [] = (certs, None, false)
    /\ ((forall j, Next_err env j = None) -> certs = rows).
Proof.
  intros K.
  unfold Direct_cursor, Direct.getCertificates, Direct.db_QueryContext,
    defer, bind, ret, call; simpl.
  destruct (Open_err env); simpl; [discriminate|].
  destruct (Query_err env); simpl.
  - destruct (db_Close_err env); simpl; intros H; inversion H.
    now apply K in H2.
  - destruct (Direct.certificateQuery _ d L) as [rows|e]; simpl.
    + destruct (Direct_scanRows_cases rows 0 []) as [(k & Hk & H & Hall)|[e H]];
        rewrite H; simpl.
      * simpl in H.
        intros H'. apply (f_equal (fun x => fst (fst x))) in H'.
        exists rows, k.
        destruct (db_Close_err env); simpl in H'; subst; repeat split; auto;
          intros HN; rewrite (Hall HN); apply firstn_all.
      * destruct (Append (Some e) [rows_Close_err env]) eqn:E;
          [|now apply K in E].
        destruct (db_Close_err env); simpl; intros H'; inversion H'.
        now apply K in H2.
    + destruct (db_Close_err env); simpl; intros H; inversion H.
      now apply K in H2.
Qed.

Lemma Direct_getCertificates_out d L w :
  out (snd (Direct.getCertificates Append env d L w)) = out w.
Proof.
  unfold Direct.getCertificates, Direct.db_QueryContext,
    defer, bind, ret, call; simpl.
  destruct (Open_err env); simpl; [reflexivity|].
  destruct (match Query_err env with Some e => _ | None => _ end); simpl;
    destruct (db_Close_err env); reflexivity.
Qed.

Lemma Direct_printCertificates_cons pem i der ders w :
  Direct.printCertificates parse env pem i (der :: ders) w =
  match parse der with
  | inr e =>
      (Some (fmt_Errorf "could not parse x509 certificate (%w)" [] e), w)
  | inl cert =>
      let w1 := snd (log (Printf_entry (Subject_CommonName cert)
                                       (NotBefore cert)) w) in
      if pem then
        match Write_err env i with
        | Some (n, e) =>
            (Some (fmt_Errorf "could not encode PEM (%w)" [] e),
             snd (log (PEM_block
                         (firstn n
                            (pem.Encode {| pem.Type_ := Direct.CERTIFICATE;
                                           pem.Bytes := der |}))) w1))
        | None =>
            Direct.printCertificates parse env pem (S i) ders
              (snd (log (PEM_block
                           (pem.Encode {| pem.Type_ := Direct.CERTIFICATE;
                                          pem.Bytes := der |})) w1))
        end
      else Direct.printCertificates parse env pem (S i) ders w1
  end.
Proof.
  simpl. destruct (parse der); [|reflexivity].
  unfold bind at 1; simpl.
  destruct pem; [|reflexivity].
  destruct (Write_err env i) as [[n e]|]; reflexivity.
Qed.

(** The print loop logs the entries of a prefix of the certificates, in
    order, and of all of them when it returns [nil]. *)
Lemma Direct_printCertificates_entries pem ders : forall i w,
  let r := Direct.printCertificates parse env pem i ders w in
  exists k new,
    (k <= List.length ders)%nat
    /\ entries (snd r) = entries w ++ new
    /\ map Some new = map (entry_of parse) (firstn k ders)
    /\ (fst r = None -> k = List.length ders)
    /\ calls (snd r) = calls w.
Proof.
  induction ders as [|der ders IH]; intros i w.
  - exists 0%nat, []. simpl. rewrite app_nil_r. repeat split; auto.
  - cbv zeta. rewrite Direct_printCertificates_cons.
    destruct (parse der) as [cert|e] eqn:P.
    + cbv zeta.
      set (line := Printf_entry (Subject_CommonName cert) (NotBefore cert)).
      set (w1 := snd (log line w)).
      assert (E1 : entries w1 = entries w ++ [line])
        by (unfold w1; now rewrite entries_log).
      assert (C1 : calls w1 = calls w) by reflexivity.
      assert (EO : entry_of parse der = Some line) by (unfold entry_of; now rewrite P).
      assert (step : forall w2, entries w2 = entries w1 -> calls w2 = calls w1 ->
        let r := Direct.printCertificates parse env pem (S i) ders w2 in
        exists k new,
          (k <= List.length (der :: ders))%nat
          /\ entries (snd r) = entries w ++ new
          /\ map Some new = map (entry_of parse) (firstn k (der :: ders))
          /\ (fst r = None -> k = List.length (der :: ders))
          /\ calls (snd r) = calls w).
      { intros w2 E2 C2.
        destruct (IH (S i) w2) as (k & new & Hk & He & Hm & Hn & Hc).
        exists (S k), (line :: new). cbn [firstn map List.length].
        rewrite EO, Hm, He, E2, E1, <- app_assoc, Hc, C2, C1.
        repeat split; auto; try lia; intros H; now rewrite (Hn H). }
      destruct pem.
      * destruct (Write_err env i) as [[n e]|].
        -- exists 1%nat, [line]. cbn [firstn map List.length fst snd].
           rewrite EO, entries_log. cbn [is_entry]. rewrite app_nil_r.
           repeat split; auto; try discriminate; lia.
        -- apply step; [|reflexivity].
           rewrite entries_log. simpl. now rewrite app_nil_r.
      * now apply step.
    + exists 0%nat, []. cbn [firstn map List.length fst snd].
      rewrite app_nil_r. repeat split; auto; try discriminate; lia.
Qed.

End DirectFacts.

(** ** The aggregated variant: the scan loop *)

Section AggregatedFacts.

Variable Append : option error -> list (option error) -> option error.
Variable env : Env.

Lemma Aggregated_scanRows_cons i row rows w :
  Aggregated.scanRows env i (row :: rows) w =
  match Next_err env i with
  | Some _ =>
      ({| Aggregated.err := None; Aggregated.results := ([], None);
          Aggregated.rows_open := false |}, w)
  | None =>
      match Scan_err env i with
      | Some e =>
          ({| Aggregated.err := Some e;
              Aggregated.results :=
                ([], Some (fmt_Errorf "could not scan row (%w)" [] e));
              Aggregated.rows_open := true |}, w)
      | None =>
          Aggregated.scanRows env (S i) rows (snd (log (Println_row row) w))
      end
  end.
Proof.
  simpl. destruct (Next_err env i); [reflexivity|].
  destruct (Scan_err env i); reflexivity.
Qed.

(** The scan loop logs a prefix of the cursor, all of it when it returns
    [nil] and [rows.Next] has not failed, and never returns a row. *)
Lemma Aggregated_scanRows_out rows : forall i w,
  let r := Aggregated.scanRows env i rows w in
  exists k,
    (k <= List.length rows)%nat
    /\ out (snd r) = out w ++ map Println_row (firstn k rows)
    /\ calls (snd r) = calls w
    /\ fst (Aggregated.results (fst r)) = []
    /\ (snd (Aggregated.results (fst r)) = None ->
        (forall j, Next_err env j = None) -> k = List.length rows).
Proof.
  induction rows as [|row rows IH]; intros i w.
  - exists 0%nat. simpl. rewrite app_nil_r. repeat split; auto.
  - cbv zeta. rewrite Aggregated_scanRows_cons.
    destruct (Next_err env i) as [e|] eqn:N.
    { exists 0%nat. simpl. rewrite app_nil_r.
      repeat split; auto; try lia.
      intros _ HN. rewrite HN in N. discriminate. }
    destruct (Scan_err env i) as [e|].
    + exists 0%nat. simpl. rewrite app_nil_r.
      repeat split; auto; try discriminate; lia.
    + destruct (IH (S i) (snd (log (Println_row row) w)))
        as (k & Hk & Ho & Hc & Hr & Hn).
      exists (S k). cbn [firstn map List.length].
      rewrite Ho, Hc. simpl. rewrite <- app_assoc.
      repeat split; auto; try lia; intros H HN; now rewrite (Hn H HN).
Qed.

End AggregatedFacts.

(** ** The aggregated variant: [getCertificates] *)

Section AggregatedGet.

Variable Append : option error -> list (option error) -> option error.
Variable env : Env.

(** [getCertificates] of [main.go] returns no row; it logs a prefix of the
    cursor, and the whole cursor when it returns [nil] and [rows.Next] has
    not failed. *)
Lemma Aggregated_getCertificates_spec d L w :
  let r := Aggregated.getCertificates Append env d L w in
  fst (fst r) = []
  /\ exists k rows,
       (k <= List.length rows)%nat
       /\ entries (snd r) = entries w ++ map Println_row (firstn k rows)
       /\ (rows = [] \/ Aggregated_cursor env d L = inl rows)
       /\ (snd (fst r) = None ->
           Aggregated_cursor env d L = inl rows
           /\ out (snd r) = out w ++ map Println_row (firstn k rows)
           /\ ((forall j, Next_err env j = None) -> k = List.length rows)).
Proof.
  unfold Aggregated_cursor, Aggregated.getCertificates,
    Aggregated.stmt_QueryContext, defer, bind, ret, call, log. simpl.
  assert (Hent : forall lines o, o = out w ++ lines ->
            forall c, entries {| calls := c; out := o |}
                      = entries w ++ filter is_entry lines).
  { intros lines o -> c. unfold entries. simpl. apply filter_app. }
  assert (Hrows : forall rs, filter is_entry (map Println_row rs)
                             = map Println_row rs).
  { induction rs; simpl; congruence. }
  destruct (Open_err env); simpl.
  { split; [reflexivity|]. exists 0%nat, []. simpl. rewrite app_nil_r.
    repeat split; auto; discriminate. }
  destruct (Prepare_err env); simpl.
  { split; [destruct (db_Close_err env); reflexivity|].
    exists 0%nat, []. simpl.
    repeat split; auto; destruct (db_Close_err env); simpl; try discriminate;
      now erewrite Hent by reflexivity. }
  destruct (Query_err env); simpl.
  { split; [destruct (db_Close_err env); reflexivity|].
    exists 0%nat, []. simpl. rewrite app_nil_r.
    repeat split; auto; destruct (db_Close_err env); simpl; try discriminate;
      reflexivity. }
  destruct (Aggregated.certificateQuery (issuances env) d L) as [rows|e]; simpl.
  2:{ split; [destruct (db_Close_err env); reflexivity|].
      exists 0%nat, []. simpl. rewrite app_nil_r.
      repeat split; auto; destruct (db_Close_err env); simpl; try discriminate;
        reflexivity. }
  destruct (Columns_err env); simpl.
  { split; [destruct (db_Close_err env); reflexivity|].
    exists 0%nat, rows. simpl. rewrite app_nil_r.
    repeat split; auto; try lia; destruct (db_Close_err env); simpl;
      try discriminate; reflexivity. }
  match goal with
  | |- context [Aggregated.scanRows env 0 rows ?w0] =>
      destruct (Aggregated_scanRows_out env rows 0 w0)
        as (k & Hk & Ho & Hc & Hr & Hn);
      destruct (Aggregated.scanRows env 0 rows w0) as [fr w1]
  end.
  simpl in *. destruct w1 as [c1 o1]; simpl in *. subst o1.
  split; [destruct (db_Close_err env); exact Hr|].
  exists k, rows.
  repeat split; auto; destruct (db_Close_err env); simpl;
    try (erewrite Hent by reflexivity; now rewrite Hrows).
  all: match goal with
       | Hnil : snd _ = None |- _ => simpl in Hnil; auto
       end.
Qed.

End AggregatedGet.

(** ** The usage check of [run] *)

Lemma Direct_run_usage Append parse env f w :
  List.length (Args f) <> 1%nat ->
  Direct.run Append parse env f w = (Some Direct.errExpectedArguments, w).
Proof.
  intros H. unfold Direct.run.
  destruct (Nat.eqb_spec (List.length (Args f)) 1); [contradiction|reflexivity].
Qed.

Lemma Aggregated_run_usage Append env f w :
  List.length (Args f) <> 1%nat ->
  Aggregated.run Append env f w = (Some Aggregated.errExpectedArguments, w).
Proof.
  intros H. unfold Aggregated.run.
  destruct (Nat.eqb_spec (List.length (Args f)) 1); [contradiction|reflexivity].
Qed.

(** With one positional argument [run] goes on to [getCertificates]. *)
Lemma Direct_run_one Append parse env v L p d w :
  Direct.run Append parse env
    {| verbose := v; limit := L; printPEM := p; Args := [d] |} w =
  let r := Direct.getCertificates Append env d L w in
  match snd (fst r) with
  | Some e =>
      (Some (fmt_Errorf "could not getCertificates of (%v) error (%w)" [d] e),
       snd r)
  | None => Direct.printCertificates parse env p 0 (fst (fst r)) (snd r)
  end.
Proof.
  unfold Direct.run.
  cbn [Args limit printPEM List.length Nat.eqb negb nth].
  unfold bind at 1. cbv zeta.
  destruct (snd (fst (Direct.getCertificates Append env d L w))); reflexivity.
Qed.

Lemma Aggregated_run_one Append env v L p d w :
  Aggregated.run Append env
    {| verbose := v; limit := L; printPEM := p; Args := [d] |} w =
  let r := Aggregated.getCertificates Append env d L w in
  match snd (fst r) with
  | Some e =>
      (Some (fmt_Errorf "could not getCertificates of (%v) error (%w)" [d] e),
       snd r)
  | None => (None, snd (log (Println_certs (fst (fst r))) (snd r)))
  end.
Proof.
  unfold Aggregated.run.
  cbn [Args limit printPEM List.length Nat.eqb negb nth].
  unfold bind at 1. cbv zeta.
  destruct (snd (fst (Aggregated.getCertificates Append env d L w))); reflexivity.
Qed.

(** ** Driver calls *)

Lemma Direct_getCertificates_calls Append env d L w :
  calls (snd (Direct.getCertificates Append env d L w))
  = calls w ++ Direct_trace env d L.
Proof.
  unfold Direct_trace, Direct_cursor, Direct.getCertificates,
    Direct.db_QueryContext, defer, bind, ret, call; simpl.
  destruct (Open_err env); simpl; [reflexivity|].
  destruct (match Query_err env with Some e => _ | None => _ end); simpl;
    destruct (db_Close_err env); simpl; now rewrite <- ?app_assoc.
Qed.

Lemma Aggregated_getCertificates_calls Append env d L w :
  calls (snd (Aggregated.getCertificates Append env d L w))
  = calls w ++ Aggregated_trace env d L.
Proof.
  unfold Aggregated_trace, Aggregated_cursor, Aggregated.getCertificates,
    Aggregated.stmt_QueryContext, defer, bind, ret, call, log; simpl.
  destruct (Open_err env); simpl; [reflexivity|].
  destruct (Prepare_err env); simpl.
  { destruct (db_Close_err env); simpl; now rewrite <- ?app_assoc. }
  destruct (match Query_err env with Some e => _ | None => _ end)
    as [rows|e]; simpl.
  2:{ destruct (db_Close_err env); simpl; now rewrite <- ?app_assoc. }
  destruct (Columns_err env); simpl.
  { destruct (db_Close_err env); simpl; now rewrite <- ?app_assoc. }
  match goal with
  | |- context [Aggregated.scanRows env 0 rows ?w0] =>
      destruct (Aggregated_scanRows_out env rows 0 w0)
        as (k & Hk & Ho & Hc & Hr & Hn);
      destruct (Aggregated.scanRows env 0 rows w0) as [fr w1]
  end.
  simpl in *. rewrite Hc.
  destruct (db_Close_err env); simpl; now rewrite <- ?app_assoc.
Qed.

Lemma Direct_run_calls Append parse env v L p d w :
  calls (snd (Direct.run Append parse env
                {| verbose := v; limit := L; printPEM := p; Args := [d] |} w))
  = calls w ++ Direct_trace env d L.
Proof.
  rewrite Direct_run_one. cbv zeta.
  pose proof (Direct_getCertificates_calls Append env d L w) as C.
  destruct (snd (fst (Direct.getCertificates Append env d L w))); simpl.
  - exact C.
  - destruct (Direct_printCertificates_entries parse env p
                (fst (fst (Direct.getCertificates Append env d L w))) 0
                (snd (Direct.getCertificates Append env d L w)))
      as (k & new & _ & _ & _ & _ & Hc).
    now rewrite Hc.
Qed.

Lemma Aggregated_run_calls Append env v L p d w :
  calls (snd (Aggregated.run Append env
                {| verbose := v; limit := L; printPEM := p; Args := [d] |} w))
  = calls w ++ Aggregated_trace env d L.
Proof.
  rewrite Aggregated_run_one. cbv zeta.
  pose proof (Aggregated_getCertificates_calls Append env d L w) as C.
  destruct (snd (fst (Aggregated.getCertificates Append env d L w))); exact C.
Qed.

(** An error of the print loop is that of a certificate of the slice that
    does not parse, or of a PEM write that failed, with its context. *)
Lemma Direct_printCertificates_error parse env p ders : forall i w e,
  fst (Direct.printCertificates parse env p i ders w) = Some e ->
  (exists der e',
      In der ders /\ parse der = inr e'
      /\ e = fmt_Errorf "could not parse x509 certificate (%w)" [] e')
  \/ (p = true
      /\ exists j n e',
           Write_err env j = Some (n, e')
           /\ e = fmt_Errorf "could not encode PEM (%w)" [] e').
Proof.
  induction ders as [|der ders IH]; intros i w e.
  - discriminate.
  - rewrite Direct_printCertificates_cons.
    destruct (parse der) as [cert|e0] eqn:P; cbv zeta.
    + assert (step : forall w2,
                fst (Direct.printCertificates parse env p (S i) ders w2)
                = Some e ->
                (exists der0 e',
                    In der0 (der :: ders) /\ parse der0 = inr e'
                    /\ e = fmt_Errorf "could not parse x509 certificate (%w)"
                             [] e')
                \/ (p = true
                    /\ exists j n e',
                         Write_err env j = Some (n, e')
                         /\ e = fmt_Errorf "could not encode PEM (%w)" [] e')).
      { intros w2 H. apply IH in H as [(der0 & e' & HI & HP & HE)|H].
        - left. exists der0, e'. split; [now right|]. now split.
        - now right. }
      destruct p; [|apply step].
      destruct (Write_err env i) as [[n e1]|] eqn:W; [|apply step].
      simpl. intros H; injection H as <-. right. split; [reflexivity|].
      exists i, n, e1. auto.
    + simpl. intros H; injection H as <-. left.
      exists der, e0. split; [now left|]. now split.
Qed.

(** ** Runs in which nothing fails *)

Lemma multierror_keeps_errors : keeps_errors multierror.Append.
Proof.
  intros e errs. unfold multierror.Append.
  destruct e; destruct (multierror.nonNil errs); discriminate.
Qed.

Lemma multierror_nil_of_nils : nil_of_nils multierror.Append.
Proof. reflexivity. Qed.

Lemma Direct_getCertificates_healthy Append env d L w rows :
  nil_of_nils Append -> healthy env ->
  Direct_cursor env d L = inl rows ->
  Direct.getCertificates Append env d L w
  = (rows, None,
     {| calls := calls w ++ Direct_trace env d L; out := out w |}).
Proof.
  intros N (HO & HD & _ & _ & HQ & _ & HR & HS & _ & HN) HC.
  unfold Direct_trace. rewrite HC, HO.
  unfold Direct_cursor in HC. rewrite HQ in HC.
  unfold Direct.getCertificates, Direct.db_QueryContext,
    defer, bind, ret, call; simpl.
  rewrite HO, HQ, HC; simpl.
  rewrite (Direct_scanRows_ok env rows 0 [] HN HS), HD; simpl.
  rewrite N, <- !app_assoc. reflexivity.
Qed.

Lemma Aggregated_scanRows_ok env rows : forall i w,
  (forall j, Next_err env j = None) ->
  (forall j, Scan_err env j = None) ->
  Aggregated.scanRows env i rows w
  = ({| Aggregated.err := None; Aggregated.results := ([], None);
        Aggregated.rows_open := false |},
     {| calls := calls w; out := out w ++ map Println_row rows |}).
Proof.
  induction rows as [|row rows IH]; intros i w HN H.
  - simpl. rewrite app_nil_r. now destruct w.
  - rewrite Aggregated_scanRows_cons, HN, H, IH by assumption.
    simpl. now rewrite <- app_assoc.
Qed.

Lemma Aggregated_getCertificates_healthy Append env d L w rows :
  healthy env ->
  Aggregated_cursor env d L = inl rows ->
  Aggregated.getCertificates Append env d L w
  = ([], None,
     {| calls := calls w ++ Aggregated_trace env d L;
        out := out w ++ map Println_row rows |}).
Proof.
  intros (HO & HD & HP & _ & HQ & HCo & _ & HS & _ & HN) HC.
  unfold Aggregated_trace. rewrite HC, HO, HP.
  unfold Aggregated_cursor in HC. rewrite HQ in HC.
  unfold Aggregated.getCertificates, Aggregated.stmt_QueryContext,
    defer, bind, ret, call; simpl.
  rewrite HO; simpl. rewrite HP; simpl. rewrite HQ, HC; simpl.
  rewrite HCo; simpl.
  rewrite (Aggregated_scanRows_ok env rows 0 _ HN HS), HD; simpl.
  rewrite <- !app_assoc. reflexivity.
Qed.

Lemma crt_sh_empty_healthy : healthy crt_sh_empty.
Proof. repeat split. Qed.

(** ** ORDER BY and LIKE *)

Lemma insert_desc_perm r l : Permutation (r :: l) (sql.insert_desc r l).
Proof.
  induction l as [|x l IH]; simpl.
  - apply Permutation_refl.
  - destruct (certificate_id x <=? certificate_id r)%Z.
    + apply Permutation_refl.
    + eapply perm_trans; [apply perm_swap|]. now apply perm_skip.
Qed.

Lemma order_by_perm l : Permutation (sql.order_by_certificate_id_desc l) l.
Proof.
  induction l as [|r l IH]; simpl.
  - apply perm_nil.
  - eapply perm_trans; [apply Permutation_sym, insert_desc_perm|].
    now apply perm_skip.
Qed.

Lemma insert_desc_sorted r l : descending l -> descending (sql.insert_desc r l).
Proof.
  unfold descending. induction l as [|x l IH]; intros H; simpl.
  - repeat constructor.
  - destruct (Z.leb_spec (certificate_id x) (certificate_id r)) as [Hle|Hgt].
    + constructor; [assumption|]. now constructor.
    + inversion H as [|? ? Hs Hr]; subst.
      constructor; [now apply IH|].
      destruct l as [|y l]; simpl.
      * constructor. lia.
      * inversion Hr; subst.
        destruct (certificate_id y <=? certificate_id r)%Z;
          constructor; (assumption || lia).
Qed.

Lemma order_by_sorted l : descending (sql.order_by_certificate_id_desc l).
Proof.
  induction l as [|r l IH]; simpl.
  - constructor.
  - now apply insert_desc_sorted.
Qed.

(** A pattern of literal characters matches its own text and nothing
    else. *)
Lemma like_match_literal pattern :
  forallb literal pattern = true ->
  forall s, sql.like_match pattern s = true <-> s = pattern.
Proof.
  induction pattern as [|p pattern IH]; intros Hp s.
  - simpl. destruct s; simpl; split; (discriminate || auto).
  - simpl in Hp. apply andb_true_iff in Hp as [Hl Hp].
    unfold literal in Hl. apply negb_true_iff in Hl.
    apply orb_false_iff in Hl as [Hl H3]. apply orb_false_iff in Hl as [H1 H2].
    cbn [sql.like_match]. rewrite H1, H2, H3.
    destruct s as [|c s].
    + split; discriminate.
    + rewrite andb_true_iff, (IH Hp s), Ascii.eqb_eq.
      split; [intros [-> ->]; reflexivity | intros H; now injection H].
Qed.

Lemma list_ascii_of_string_inj s t :
  list_ascii_of_string s = list_ascii_of_string t -> s = t.
Proof.
  intros H. rewrite <- (string_of_list_ascii_of_string s),
    <- (string_of_list_ascii_of_string t). now rewrite H.
Qed.

Lemma LIKE_plain d :
  plain d = true -> forall s, sql.LIKE s d = String.eqb s d.
Proof.
  intros Hd s. unfold sql.LIKE, plain in *.
  pose proof (like_match_literal _ Hd (list_ascii_of_string s)) as H.
  destruct (String.eqb_spec s d) as [->|Hne].
  - now apply H.
  - destruct (sql.like_match _ _); [|reflexivity].
    exfalso. apply Hne, list_ascii_of_string_inj. now apply H.
Qed.

Lemma crt_sh_healthy : healthy crt_sh.
Proof. repeat split. Qed.

(** ** Base64: bit operations as arithmetic *)

Local Open Scope Z_scope.

Lemma land_shiftl_small a n y :
  0 <= n -> 0 <= y < 2 ^ n -> Z.land (Z.shiftl a n) y = 0.
Proof.
  intros Hn Hy. apply Z.bits_inj'. intros i Hi.
  rewrite Z.land_spec, Z.bits_0, Z.shiftl_spec by assumption.
  destruct (Z.lt_ge_cases i n) as [Hlt|Hge].
  - rewrite Z.testbit_neg_r by lia. reflexivity.
  - rewrite <- (Z.mod_small y (2 ^ n)) by assumption.
    rewrite Z.mod_pow2_bits_high by lia. apply Bool.andb_false_r.
Qed.

Lemma lor_disjoint x y n m :
  0 <= n -> m = 2 ^ n -> x mod m = 0 -> 0 <= y < m -> Z.lor x y = x + y.
Proof.
  intros Hn -> Hx Hy.
  assert (E : x = Z.shiftl (x / 2 ^ n) n).
  { rewrite Z.shiftl_mul_pow2 by assumption.
    pose proof (Z.pow_pos_nonneg 2 n ltac:(lia) Hn).
    rewrite (Z.div_mod x (2 ^ n)) at 1 by lia. lia. }
  pose proof (Zbitwise.Z.add_lor_land x y) as H.
  rewrite E in H at 2. rewrite land_shiftl_small in H by assumption. lia.
Qed.

Lemma shiftl_const a n m : 0 <= n -> m = 2 ^ n -> Z.shiftl a n = a * m.
Proof. intros Hn ->. now apply Z.shiftl_mul_pow2. Qed.

Lemma shiftr_const a n m : 0 <= n -> m = 2 ^ n -> Z.shiftr a n = a / m.
Proof. intros Hn ->. now apply Z.shiftr_div_pow2. Qed.

Lemma land_const a n k m :
  0 <= n -> k = Z.ones n -> m = 2 ^ n -> Z.land a k = a mod m.
Proof. intros Hn -> ->. now apply Z.land_ones. Qed.

Ltac bits_to_arith :=
  repeat first
    [ rewrite (shiftl_const _ 6 64) by (lia || reflexivity)
    | rewrite (shiftl_const _ 8 256) by (lia || reflexivity)
    | rewrite (shiftl_const _ 12 4096) by (lia || reflexivity)
    | rewrite (shiftl_const _ 16 65536) by (lia || reflexivity)
    | rewrite (shiftl_const _ 18 262144) by (lia || reflexivity)
    | rewrite (shiftr_const _ 6 64) by (lia || reflexivity)
    | rewrite (shiftr_const _ 8 256) by (lia || reflexivity)
    | rewrite (shiftr_const _ 12 4096) by (lia || reflexivity)
    | rewrite (shiftr_const _ 16 65536) by (lia || reflexivity)
    | rewrite (shiftr_const _ 18 262144) by (lia || reflexivity)
    | rewrite (land_const _ 6 63 64) by (lia || reflexivity)
    | rewrite (land_const _ 8 255 256) by (lia || reflexivity) ].

Lemma quantum_of_bytes a b c : 0 <= a < 256 -> 0 <= b < 256 -> 0 <= c < 256 ->
  Z.lor (Z.lor (Z.shiftl a 16) (Z.shiftl b 8)) c = a * 65536 + b * 256 + c.
Proof.
  intros Ha Hb Hc. bits_to_arith.
  rewrite (lor_disjoint (a * 65536) (b * 256) 16 65536);
    [|lia|reflexivity|apply Z.mod_mul; lia|lia].
  rewrite (lor_disjoint _ c 8 256); [lia|lia|reflexivity| |lia].
  Z.div_mod_to_equations. lia.
Qed.

Lemma quantum_of_sextets d0 d1 d2 d3 : 0 <= d0 < 64 -> 0 <= d1 < 64 -> 0 <= d2 < 64 -> 0 <= d3 < 64 ->
  Z.lor (Z.lor (Z.lor (Z.shiftl d0 18) (Z.shiftl d1 12)) (Z.shiftl d2 6)) d3
  = d0 * 262144 + d1 * 4096 + d2 * 64 + d3.
Proof.
  intros H0 H1 H2 H3. bits_to_arith.
  rewrite (lor_disjoint (d0 * 262144) (d1 * 4096) 18 262144);
    [|lia|reflexivity|apply Z.mod_mul; lia|lia].
  rewrite (lor_disjoint _ (d2 * 64) 12 4096); [|lia|reflexivity| |lia].
  2:{ Z.div_mod_to_equations. lia. }
  rewrite (lor_disjoint _ d3 6 64); [lia|lia|reflexivity| |lia].
  Z.div_mod_to_equations. lia.
Qed.

Lemma uint_range b : 0 <= base64.uint b < 256.
Proof.
  unfold base64.uint. pose proof (Byte.to_N_bounded b). lia.
Qed.

(** [byte(v)] recovers a byte from any value with that low byte. *)
Lemma byte_of_low v b :
  v mod 256 = base64.uint b -> base64.byte_of v = b.
Proof.
  intros H. unfold base64.byte_of.
  rewrite (land_const v 8 255 256), H by (lia || reflexivity).
  unfold base64.uint. rewrite N2Z.id, Byte.of_to_N. reflexivity.
Qed.

(** ** Base64: the alphabet *)

Lemma encode_alphabetic v : 0 <= v < 64 -> alphabetic (base64.encode v) = true.
Proof.
  intros Hv. unfold base64.encode.
  assert (A : forallb alphabetic base64.encodeStd = true) by reflexivity.
  rewrite forallb_forall in A. apply A, nth_In.
  change (List.length base64.encodeStd) with 64%nat. lia.
Qed.

Lemma decodeMap_encode v :
  0 <= v < 64 -> base64.decodeMap (base64.encode v) = Some v.
Proof.
  intros Hv.
  assert (A : forallb
                (fun n => match base64.decodeMap
                                  (nth n base64.encodeStd base64.padChar) with
                          | Some i => Z.eqb i (Z.of_nat n)
                          | None => false
                          end) (seq 0 64) = true) by (vm_compute; reflexivity).
  rewrite forallb_forall in A.
  specialize (A (Z.to_nat v)). rewrite in_seq in A.
  unfold base64.encode.
  destruct (base64.decodeMap _) as [i|]; [|discriminate A; lia].
  f_equal. specialize (A ltac:(lia)). apply Z.eqb_eq in A. lia.
Qed.

Lemma alphabetic_not_pad c :
  alphabetic c = true -> Ascii.eqb c base64.padChar = false.
Proof.
  unfold alphabetic. intros H.
  apply andb_true_iff in H as [_ H]. now apply negb_true_iff in H.
Qed.

Lemma sextet_range v k : 0 <= Z.land (Z.shiftr v k) 63 < 64.
Proof.
  rewrite (land_const _ 6 63 64) by (lia || reflexivity).
  apply Z.mod_pos_bound. lia.
Qed.

Lemma sextet0_range v : 0 <= Z.land v 63 < 64.
Proof.
  rewrite (land_const _ 6 63 64) by (lia || reflexivity).
  apply Z.mod_pos_bound. lia.
Qed.

(** ** Base64: one quantum *)

Lemma decodeQuantum_full b0 b1 b2 last :
  let val := Z.lor (Z.lor (Z.shiftl (base64.uint b0) 16)
                          (Z.shiftl (base64.uint b1) 8)) (base64.uint b2) in
  base64.decodeQuantum
    (base64.encode (Z.land (Z.shiftr val 18) 63))
    (base64.encode (Z.land (Z.shiftr val 12) 63))
    (base64.encode (Z.land (Z.shiftr val 6) 63))
    (base64.encode (Z.land val 63)) last
  = Some [b0; b1; b2].
Proof.
  intros val.
  pose proof (uint_range b0) as R0. pose proof (uint_range b1) as R1.
  pose proof (uint_range b2) as R2.
  pose proof (sextet_range val 18) as S0. pose proof (sextet_range val 12) as S1.
  pose proof (sextet_range val 6) as S2. pose proof (sextet0_range val) as S3.
  unfold base64.decodeQuantum.
  rewrite !decodeMap_encode by assumption.
  rewrite (alphabetic_not_pad _ (encode_alphabetic _ S3)).
  rewrite quantum_of_sextets by assumption.
  assert (V : val = base64.uint b0 * 65536 + base64.uint b1 * 256
                    + base64.uint b2) by (apply quantum_of_bytes; assumption).
  clearbody val. clear S0 S1 S2 S3. subst val.
  bits_to_arith.
  repeat f_equal; apply byte_of_low; Z.div_mod_to_equations; lia.
Qed.

Lemma decodeQuantum_two b0 b1 :
  let val := Z.lor (Z.shiftl (base64.uint b0) 16)
                   (Z.shiftl (base64.uint b1) 8) in
  base64.decodeQuantum
    (base64.encode (Z.land (Z.shiftr val 18) 63))
    (base64.encode (Z.land (Z.shiftr val 12) 63))
    (base64.encode (Z.land (Z.shiftr val 6) 63))
    base64.padChar true
  = Some [b0; b1].
Proof.
  intros val.
  pose proof (uint_range b0) as R0. pose proof (uint_range b1) as R1.
  pose proof (sextet_range val 18) as S0. pose proof (sextet_range val 12) as S1.
  pose proof (sextet_range val 6) as S2.
  unfold base64.decodeQuantum.
  rewrite !decodeMap_encode by assumption.
  rewrite (alphabetic_not_pad _ (encode_alphabetic _ S2)).
  change (Ascii.eqb base64.padChar base64.padChar) with true. cbn [negb].
  cbv iota.
  pose proof (quantum_of_sextets _ _ _ 0 S0 S1 S2 ltac:(lia)) as Q.
  rewrite Z.lor_0_r in Q. rewrite Q.
  assert (V : val = base64.uint b0 * 65536 + base64.uint b1 * 256 + 0).
  { unfold val. rewrite <- (quantum_of_bytes _ _ 0) by (assumption || lia).
    now rewrite Z.lor_0_r. }
  clearbody val. clear S0 S1 S2 Q. subst val.
  bits_to_arith.
  repeat f_equal; apply byte_of_low; Z.div_mod_to_equations; lia.
Qed.

Lemma decodeQuantum_one b0 :
  let val := Z.shiftl (base64.uint b0) 16 in
  base64.decodeQuantum
    (base64.encode (Z.land (Z.shiftr val 18) 63))
    (base64.encode (Z.land (Z.shiftr val 12) 63))
    base64.padChar base64.padChar true
  = Some [b0].
Proof.
  intros val.
  pose proof (uint_range b0) as R0.
  pose proof (sextet_range val 18) as S0. pose proof (sextet_range val 12) as S1.
  unfold base64.decodeQuantum.
  rewrite !decodeMap_encode by assumption.
  change (Ascii.eqb base64.padChar base64.padChar) with true. cbn [negb].
  cbv iota.
  pose proof (quantum_of_sextets _ _ 0 0 S0 S1 ltac:(lia) ltac:(lia)) as Q.
  rewrite Z.shiftl_0_l, !Z.lor_0_r in Q. rewrite Q.
  assert (V : val = base64.uint b0 * 65536) by (unfold val; now bits_to_arith).
  clearbody val. clear S0 S1 Q. subst val.
  bits_to_arith.
  repeat f_equal; apply byte_of_low; Z.div_mod_to_equations; lia.
Qed.

(** ** Base64: whole inputs *)

Local Close Scope Z_scope.

Lemma bytes_ind3 (P : bytes -> Prop) :
  P [] -> (forall a, P [a]) -> (forall a b, P [a; b]) ->
  (forall a b c l, P l -> P (a :: b :: c :: l)) ->
  forall l, P l.
Proof.
  intros H0 H1 H2 H3.
  assert (H : forall l, P l /\ (forall a, P (a :: l))
                        /\ (forall a b, P (a :: b :: l))).
  { induction l as [|x l (IH0 & IH1 & IH2)]; repeat split; auto. }
  intros l. apply H.
Qed.

Lemma Encode_alphabet src :
  Forall (fun c => alphabetic c = true \/ c = base64.padChar)
         (base64.Encode src).
Proof.
  assert (E : forall v k, alphabetic (base64.encode (Z.land (Z.shiftr v k) 63)) = true
                          \/ base64.encode (Z.land (Z.shiftr v k) 63) = base64.padChar)
    by (intros; left; apply encode_alphabetic, sextet_range).
  assert (E0 : forall v, alphabetic (base64.encode (Z.land v 63)) = true
                         \/ base64.encode (Z.land v 63) = base64.padChar)
    by (intros; left; apply encode_alphabetic, sextet0_range).
  induction src as [| | |a b c l IH] using bytes_ind3; cbn [base64.Encode];
    repeat (apply Forall_cons; [first [apply E | apply E0 | now right]|]);
    (apply Forall_nil || exact IH).
Qed.

Lemma decodeQuanta_Encode src :
  base64.decodeQuanta (base64.Encode src) = Some src.
Proof.
  induction src as [| | |a b c l IH] using bytes_ind3.
  - reflexivity.
  - cbn [base64.Encode base64.decodeQuanta base64.is_nil].
    now rewrite decodeQuantum_one.
  - cbn [base64.Encode base64.decodeQuanta base64.is_nil].
    now rewrite decodeQuantum_two.
  - cbn [base64.Encode base64.decodeQuanta].
    now rewrite decodeQuantum_full, IH.
Qed.

Lemma filter_id {A} (f : A -> bool) l :
  Forall (fun x => f x = true) l -> filter f l = l.
Proof.
  induction 1 as [|x l Hx _ IH]; simpl; [reflexivity|].
  now rewrite Hx, IH.
Qed.

Lemma alphabetic_not_newline c :
  alphabetic c = true \/ c = base64.padChar -> base64.is_newline c = false.
Proof.
  intros [H| ->]; [|reflexivity].
  unfold alphabetic in H. repeat (apply andb_true_iff in H as [H _]).
  now apply negb_true_iff in H.
Qed.

(** Base64 round trip: decoding what [Encode] wrote gives the bytes
    back. *)
Lemma base64_round_trip src : base64.Decode (base64.Encode src) = Some src.
Proof.
  unfold base64.Decode. rewrite filter_id; [apply decodeQuanta_Encode|].
  eapply Forall_impl; [|apply Encode_alphabet].
  intros c H. cbv beta. now rewrite alphabetic_not_newline.
Qed.

(** ** PEM: the line breaker *)

Lemma lineBreaker_broken_lines s : forall used,
  s <> [] -> pem.lineBreaker used s = broken_lines used s ++ [nl].
Proof.
  induction s as [|c s IH]; intros used H; [contradiction|].
  cbn [pem.lineBreaker broken_lines].
  destruct (Nat.eqb (S used) pem.pemLineLength).
  - destruct s as [|d s]; [reflexivity|].
    rewrite IH by discriminate. reflexivity.
  - destruct s as [|d s].
    + reflexivity.
    + rewrite IH by discriminate. reflexivity.
Qed.

Lemma body_char_facts c :
  body_char c = true ->
  base64.is_newline c = false /\ gobytes.is_space_or_tab c = false
  /\ Ascii.eqb c ":"%char = false /\ Ascii.eqb c "-"%char = false
  /\ Ascii.eqb c nl = false.
Proof.
  unfold body_char. intros H.
  apply andb_true_iff in H as [H H4]. apply andb_true_iff in H as [H H3].
  apply andb_true_iff in H as [H1 H2].
  apply negb_true_iff in H1, H2, H3, H4.
  repeat split; try assumption.
  unfold base64.is_newline in H1. now apply orb_false_iff in H1 as [H1 _].
Qed.

Lemma broken_lines_unbroken s :
  Forall (fun c => body_char c = true) s -> forall used,
  filter (fun c => negb (base64.is_newline c)) (broken_lines used s) = s.
Proof.
  induction 1 as [|c s' Hc Hs IH]; intros used; [reflexivity|].
  destruct (body_char_facts c Hc) as (Hn & _).
  cbn [broken_lines].
  destruct (Nat.eqb (S used) pem.pemLineLength).
  - destruct s' as [|d s''].
    + simpl. now rewrite Hn.
    + cbn [filter]. rewrite Hn. cbn [negb].
      change (base64.is_newline nl) with true. cbn [negb].
      now rewrite IH.
  - cbn [filter]. rewrite Hn. cbn [negb]. now rewrite IH.
Qed.

Lemma broken_lines_no_blank s :
  Forall (fun c => body_char c = true) s -> forall used,
  pem.removeSpacesAndTabs (broken_lines used s) = broken_lines used s.
Proof.
  unfold pem.removeSpacesAndTabs.
  induction 1 as [|c s' Hc Hs IH]; intros used; [reflexivity|].
  destruct (body_char_facts c Hc) as (_ & Hb & _).
  cbn [broken_lines].
  destruct (Nat.eqb (S used) pem.pemLineLength).
  - destruct s' as [|d s''].
    + simpl. now rewrite Hb.
    + cbn [filter]. rewrite Hb. cbn [negb].
      change (gobytes.is_space_or_tab nl) with false. cbn [negb].
      now rewrite IH.
  - cbn [filter]. rewrite Hb. cbn [negb]. now rewrite IH.
Qed.

Lemma broken_lines_no_end_marker s :
  Forall (fun c => body_char c = true) s -> forall used,
  no_end_marker (broken_lines used s) = true.
Proof.
  induction 1 as [|c s' Hc Hs IH]; intros used; [reflexivity|].
  destruct (body_char_facts c Hc) as (_ & _ & _ & _ & Hnl).
  cbn [broken_lines].
  destruct (Nat.eqb (S used) pem.pemLineLength).
  - destruct s' as [|d s''].
    + simpl. now rewrite Hnl.
    + cbn [no_end_marker]. rewrite Hnl. cbn [negb orb andb].
      change (Ascii.eqb nl nl) with true. cbn [negb orb].
      specialize (IH 0%nat). cbn [broken_lines] in IH |- *.
      inversion Hs as [|? ? Hd _]; subst.
      destruct (body_char_facts d Hd) as (_ & _ & _ & Hdash & _).
      destruct (Nat.eqb 1 pem.pemLineLength);
        [destruct s''|]; rewrite Hdash; cbn [negb andb]; exact IH.
  - cbn [no_end_marker]. rewrite Hnl. cbn [negb orb andb]. apply IH.
Qed.

Lemma broken_lines_no_colon s :
  Forall (fun c => body_char c = true) s -> forall used,
  forallb (fun c => negb (Ascii.eqb c ":"%char)) (broken_lines used s) = true.
Proof.
  induction 1 as [|c s' Hc Hs IH]; intros used; [reflexivity|].
  destruct (body_char_facts c Hc) as (_ & _ & Hcol & _).
  cbn [broken_lines].
  destruct (Nat.eqb (S used) pem.pemLineLength).
  - destruct s' as [|d s''].
    + simpl. now rewrite Hcol.
    + cbn [forallb]. rewrite Hcol. cbn [negb andb].
      change (Ascii.eqb nl ":"%char) with false. cbn [negb andb]. apply IH.
  - cbn [forallb]. rewrite Hcol. cbn [negb andb]. apply IH.
Qed.

(** ** PEM: searching the text *)

Lemma skipn_app_plus {A} (a x : list A) n :
  skipn (List.length a + n) (a ++ x) = skipn n x.
Proof. induction a as [|c a IH]; [reflexivity | exact IH]. Qed.

Lemma firstn_app_exact {A} (a x : list A) :
  firstn (List.length a) (a ++ x) = a.
Proof. induction a as [|c a IH]; [reflexivity | simpl; now rewrite IH]. Qed.

Lemma Index_end_marker a t :
  no_end_marker a = true ->
  gobytes.Index (a ++ pem.pemEnd ++ t) pem.pemEnd = Some (List.length a).
Proof.
  induction a as [|c a IH]; intros H; [reflexivity|].
  cbn [no_end_marker] in H. apply andb_true_iff in H as [Hc Ha].
  cbn [app gobytes.Index List.length].
  replace (gobytes.HasPrefix (c :: a ++ pem.pemEnd ++ t) pem.pemEnd)
    with false.
  - now rewrite (IH Ha).
  - symmetry. unfold pem.pemEnd at 2. cbn [gobytes.HasPrefix].
    rewrite Ascii.eqb_sym.
    destruct (Ascii.eqb c nl); [|reflexivity]. cbn [negb orb andb] in *.
    destruct a as [|d a]; [discriminate|].
    cbn [app list_ascii_of_string gobytes.HasPrefix].
    rewrite Ascii.eqb_sym. apply negb_true_iff in Hc. now rewrite Hc.
Qed.

Lemma forallb_firstn {A} (f : A -> bool) n l :
  forallb f l = true -> forallb f (firstn n l) = true.
Proof.
  revert n. induction l as [|x l IH]; intros [|n] H; try reflexivity.
  simpl in *. apply andb_true_iff in H as [Hx Hl]. now rewrite Hx, IH.
Qed.

Lemma forallb_dropWhile f g l :
  forallb f l = true -> forallb f (gobytes.dropWhile g l) = true.
Proof.
  induction l as [|x l IH]; intros H; [reflexivity|].
  simpl. destruct (g x); [|exact H].
  simpl in H. apply andb_true_iff in H as [_ Hl]. now apply IH.
Qed.

Lemma forallb_rev {A} (f : A -> bool) l :
  forallb f l = true -> forallb f (rev l) = true.
Proof.
  rewrite !forallb_forall. intros H x Hx. apply H. now apply in_rev.
Qed.

Lemma forallb_getLine f data :
  forallb f data = true -> forallb f (fst (pem.getLine data)) = true.
Proof.
  intros H. unfold pem.getLine, gobytes.TrimRight.
  destruct (gobytes.IndexByte data nl); cbn [fst];
    apply forallb_rev, forallb_dropWhile, forallb_rev;
    [apply forallb_firstn|]; exact H.
Qed.

Lemma Cut_no_colon line :
  forallb (fun c => negb (Ascii.eqb c ":"%char)) line = true ->
  gobytes.Cut line pem.colon = None.
Proof.
  intros H. unfold gobytes.Cut.
  replace (gobytes.Index line pem.colon) with (@None nat); [reflexivity|].
  symmetry. induction line as [|c line IH]; [reflexivity|].
  simpl in H. apply andb_true_iff in H as [Hc Hl].
  unfold pem.colon in *. cbn [gobytes.Index gobytes.HasPrefix].
  rewrite Ascii.eqb_sym. apply negb_true_iff in Hc. rewrite Hc.
  cbn [andb]. now rewrite (IH Hl).
Qed.

Lemma getLine_type_line rest :
  pem.getLine (CERTIFICATE_line ++ nl :: rest) = (CERTIFICATE_line, rest).
Proof. reflexivity. Qed.

(** One round of [Decode] over a body [a] that starts with a base64
    character, has no colon and no end marker inside, and decodes to
    [src]. *)
Lemma decodeRound_body c a src :
  body_char c = true ->
  forallb (fun c => negb (Ascii.eqb c ":"%char)) (c :: a) = true ->
  no_end_marker (c :: a) = true ->
  base64.Decode (pem.removeSpacesAndTabs (c :: a)) = Some src ->
  pem.decodeRound
    (CERTIFICATE_line ++ nl :: (c :: a) ++ pem.pemEnd ++ CERTIFICATE_line ++ [nl])
  = pem.Found {| pem.Type_ := Direct.CERTIFICATE; pem.Bytes := src |} [].
Proof.
  intros Hc Hcolon Hend Hdec.
  destruct (body_char_facts c Hc) as (_ & _ & _ & Hdash & _).
  unfold pem.decodeRound. rewrite getLine_type_line. cbn [fst snd].
  change (gobytes.HasSuffix CERTIFICATE_line pem.pemEndOfLine) with true.
  cbn [negb]. cbv iota.
  change (firstn (List.length CERTIFICATE_line - List.length pem.pemEndOfLine)
            CERTIFICATE_line) with Direct.CERTIFICATE.
  set (rest := (c :: a) ++ pem.pemEnd ++ CERTIFICATE_line ++ [nl]).
  assert (Hs : pem.skipHeaders (S (List.length rest)) 0 rest = Some (0%nat, rest)).
  { cbn [pem.skipHeaders]. unfold rest at 1. cbn [app base64.is_nil].
    rewrite Cut_no_colon; [reflexivity|].
    apply forallb_getLine. unfold rest.
    rewrite forallb_app, Hcolon. reflexivity. }
  rewrite Hs. cbn [Nat.eqb andb].
  replace (gobytes.HasPrefix rest (tl pem.pemEnd)) with false.
  2:{ unfold rest.
      change (tl pem.pemEnd)
        with ("-"%char :: list_ascii_of_string "----END ").
      cbn [app gobytes.HasPrefix].
      rewrite Ascii.eqb_sym, Hdash. reflexivity. }
  unfold rest at 1. rewrite (Index_end_marker _ _ Hend).
  unfold rest. rewrite skipn_app_plus, firstn_app_exact, Hdec.
  replace (List.length (c :: a) + List.length pem.pemEnd - 1)%nat
    with (List.length (c :: a) + 9)%nat by (cbn; lia).
  rewrite skipn_app_plus.
  reflexivity.
Qed.

Lemma Encode_body_chars src :
  Forall (fun c => body_char c = true) (base64.Encode src).
Proof.
  eapply Forall_impl; [|apply Encode_alphabet].
  intros c [H| ->]; [|reflexivity].
  unfold alphabetic in H. now apply andb_true_iff in H as [H _].
Qed.

Lemma Encode_nonempty b src : base64.Encode (b :: src) <> [].
Proof. destruct src as [|b1 [|b2 src]]; discriminate. Qed.

Lemma Decode_broken_lines src used :
  base64.Decode
    (pem.removeSpacesAndTabs (broken_lines used (base64.Encode src)))
  = Some src.
Proof.
  rewrite broken_lines_no_blank by apply Encode_body_chars.
  unfold base64.Decode.
  rewrite broken_lines_unbroken by apply Encode_body_chars.
  apply decodeQuanta_Encode.
Qed.

(** * The claims *)

Local Close Scope Z_scope.

(** C1 (the aggregated variant does not do this).  In [main.go] the results
    of [getCertificates] are unnamed, so the deferred closures that call
    [multierror.Append] assign to the local [err] after the returned values
    are fixed.  Whatever [Append] is and whatever the three [Close] calls
    answer, a run whose only failures are in the cleanup returns [nil], and
    a failed query returns its own error alone; all three [Close] calls were
    made. *)
Theorem aggregated_cleanup_errors_are_dropped :
  forall Append e_query e_rows e_stmt e_db d,
    Aggregated.getCertificates Append (close_fails e_rows e_stmt e_db) d 1 start
    = ([], None,
       {| calls := [sql_Open "host=crt.sh user=guest dbname=certwatch";
                    db_PrepareContext; QueryContext d 1; rows_Columns;
                    rows_Close; stmt_Close; db_Close];
          out := [] |})
    /\ Aggregated.getCertificates Append
         (query_and_close_fail e_query e_stmt e_db) d 1 start
    = ([], Some (fmt_Errorf
          "could not execute SQL on postgres for finding certificates (%w)"
          [] e_query),
       {| calls := [sql_Open "host=crt.sh user=guest dbname=certwatch";
                    db_PrepareContext; QueryContext d 1;
                    stmt_Close; db_Close];
          out := [] |}).
Proof. intros. split; reflexivity. Qed.

(** C2.  For every limit [L >= 1] and every domain name, [getCertificates]
    returns at most [L] rows in both variants, and [run] prints at most [L]
    certificate or row entries. *)
Theorem rows_within_limit :
  forall Append parse env v p d L w,
    (1 <= L)%Z ->
    let f := {| verbose := v; limit := L; printPEM := p; Args := [d] |} in
    (List.length (fst (fst (Direct.getCertificates Append env d L w)))
       <= Z.to_nat L)%nat
    /\ (List.length (fst (fst (Aggregated.getCertificates Append env d L w)))
       <= Z.to_nat L)%nat
    /\ (List.length (entries (snd (Direct.run Append parse env f w)))
       <= List.length (entries w) + Z.to_nat L)%nat
    /\ (List.length (entries (snd (Aggregated.run Append env f w)))
       <= List.length (entries w) + Z.to_nat L)%nat.
Proof.
  intros Append parse env v p d L w HL f.
  assert (D : (List.length (fst (fst (Direct.getCertificates Append env d L w)))
               <= Z.to_nat L)%nat).
  { destruct (Direct_getCertificates_certs Append env d L w)
      as [H|(rows & k & H & Hc & _)].
    - rewrite H. simpl. lia.
    - rewrite Hc, length_firstn.
      unfold Direct_cursor in H. destruct (Query_err env); [discriminate|].
      apply Direct_certificateQuery_length in H. lia. }
  destruct (Aggregated_getCertificates_spec Append env d L w)
    as (A0 & k & rows & Hk & He & Hrows & Hn).
  assert (R : (List.length rows <= Z.to_nat L)%nat).
  { destruct Hrows as [->|H]; [simpl; lia|].
    unfold Aggregated_cursor in H. destruct (Query_err env); [discriminate|].
    eapply LIMIT_length; eassumption. }
  repeat split.
  - exact D.
  - rewrite A0. simpl. lia.
  - unfold f. rewrite Direct_run_one. cbv zeta.
    assert (E : entries (snd (Direct.getCertificates Append env d L w))
                = entries w)
      by (unfold entries; now rewrite Direct_getCertificates_out).
    destruct (snd (fst (Direct.getCertificates Append env d L w))); simpl.
    + rewrite E. lia.
    + destruct (Direct_printCertificates_entries parse env p
                  (fst (fst (Direct.getCertificates Append env d L w))) 0
                  (snd (Direct.getCertificates Append env d L w)))
        as (k' & new & Hk' & He' & Hm & Hn' & Hc').
      rewrite He', E, length_app.
      apply (f_equal (@List.length _)) in Hm.
      rewrite !length_map, length_firstn in Hm. lia.
  - unfold f. rewrite Aggregated_run_one. cbv zeta.
    assert (F : (List.length (entries (snd (Aggregated.getCertificates Append env d L w)))
                 <= List.length (entries w) + Z.to_nat L)%nat).
    { rewrite He, length_app, length_map, length_firstn. lia. }
    destruct (snd (fst (Aggregated.getCertificates Append env d L w)));
      cbn [fst snd].
    + exact F.
    + rewrite entries_log. simpl. now rewrite app_nil_r.
Qed.

(** C2 at a concrete input: the server of [crt_sh], limit 2. *)
Lemma rows_within_limit_witness :
  (1 <= 2)%Z
  /\ (List.length
        (fst (fst (Direct.getCertificates multierror.Append crt_sh
                     github_com 2 start))) <= Z.to_nat 2)%nat
  /\ (List.length
        (entries (snd (Aggregated.run multierror.Append crt_sh
                         (flags 2 [github_com]) start)))
      <= List.length (entries start) + Z.to_nat 2)%nat.
Proof.
  split; [lia|].
  pose proof (rows_within_limit multierror.Append parse_nonempty crt_sh
                false false github_com 2 start ltac:(lia)) as H.
  split; apply H.
Defined.

(** C3 (amended).  With zero or more than one positional argument [run]
    returns the usage error [expected 1 argument: domain name]; [main] logs
    this one line to the error stream and exits with status 1; the usage
    text of [flag.CommandLine.Usage] is not among the lines written; no call
    reaches the database driver, so [getCertificates] has not run. *)
Theorem usage_error_without_network :
  forall Append parse env f w,
    List.length (Args f) <> 1%nat ->
    Direct.run Append parse env f w = (Some Direct.errExpectedArguments, w)
    /\ Aggregated.run Append env f w
       = (Some Aggregated.errExpectedArguments, w)
    /\ Direct.main Append parse env f w
       = (1%Z, {| calls := calls w;
                  out := out w ++ [Fatal Direct.errExpectedArguments] |})
    /\ Aggregated.main Append env f w
       = (1%Z, {| calls := calls w;
                  out := out w ++ [Fatal Aggregated.errExpectedArguments] |})
    /\ filter is_usage (out (snd (Direct.main Append parse env f w)))
       = filter is_usage (out w)
    /\ filter is_usage (out (snd (Aggregated.main Append env f w)))
       = filter is_usage (out w).
Proof.
  intros Append parse env f w H.
  unfold Direct.main, Aggregated.main, bind.
  rewrite (Direct_run_usage Append parse env f w H).
  rewrite (Aggregated_run_usage Append env f w H).
  cbn [fst snd log bind ret out]. rewrite !filter_app. cbn [filter is_usage].
  rewrite !app_nil_r. repeat split.
Qed.

(** C3 (amended) at concrete inputs: no argument, and two arguments. *)
Lemma usage_error_without_network_witness :
  (List.length (Args (flags 1 [])) <> 1%nat
   /\ Direct.main multierror.Append parse_nonempty crt_sh (flags 1 []) start
      = (1%Z, {| calls := [];
                 out := [Fatal Direct.errExpectedArguments] |}))
  /\ (List.length (Args (flags 1 [github_com; "crt.sh"])) <> 1%nat
      /\ Aggregated.main multierror.Append crt_sh
           (flags 1 [github_com; "crt.sh"]) start
         = (1%Z, {| calls := [];
                    out := [Fatal Aggregated.errExpectedArguments] |})).
Proof.
  split; split; try (simpl; lia).
  - apply (usage_error_without_network multierror.Append parse_nonempty
             crt_sh (flags 1 []) start). simpl; lia.
  - apply (usage_error_without_network multierror.Append parse_nonempty
             crt_sh (flags 1 [github_com; "crt.sh"]) start). simpl; lia.
Defined.

(** C3 as stated fails: a run without a positional argument writes the
    line of the error and nothing else, in both variants; the usage text,
    which [Usage] would write, is not printed. *)
Lemma usage_text_is_not_printed :
  out (snd (Direct.main multierror.Append parse_nonempty crt_sh
              (flags 1 []) start))
  = [Fatal (errors_New "expected 1 argument: domain name")]
  /\ out (snd (Aggregated.main multierror.Append crt_sh (flags 1 []) start))
     = [Fatal (errors_New "expected 1 argument: domain name")]
  /\ existsb is_usage
       (out (snd (Direct.main multierror.Append parse_nonempty crt_sh
                    (flags 1 []) start))) = false
  /\ existsb is_usage
       (out (snd (Aggregated.main multierror.Append crt_sh
                    (flags 1 []) start))) = false
  /\ map is_usage (out (snd (Usage "findcert" start))) = [true; true].
Proof. repeat split. Qed.

(** C4 (amended).  In the direct variant the statement is run with the
    domain name [d] itself as the [LIKE] pattern.  When no driver call
    fails and the limit [L] is not negative, [getCertificates] returns the
    [certificate] column of the rows whose [name_value] matches the pattern
    [d], in descending order of [certificate_id], cut after [L] rows.  For a
    [d] without the metacharacters [%], [_] and backslash, a row matches
    only if its [name_value] equals [d]. *)
Theorem direct_query_filters_by_pattern :
  forall Append env d L w,
    nil_of_nils Append ->
    healthy env ->
    (0 <= L)%Z ->
    exists ordered,
      Permutation ordered
        (filter (fun r => sql.LIKE (name_value r) d)
                (certificate_and_identities env))
      /\ descending ordered
      /\ fst (Direct.getCertificates Append env d L w)
         = (map certificate (firstn (Z.to_nat L) ordered), None)
      /\ (plain d = true ->
          forall r, sql.LIKE (name_value r) d = String.eqb (name_value r) d).
Proof.
  intros Append env d L w N H HL.
  exists (sql.order_by_certificate_id_desc
            (filter (fun r => sql.LIKE (name_value r) d)
                    (certificate_and_identities env))).
  split; [apply order_by_perm|].
  split; [apply order_by_sorted|].
  split.
  - erewrite Direct_getCertificates_healthy; try eassumption; [reflexivity|].
    unfold Direct_cursor, Direct.certificateQuery.
    destruct H as (_ & _ & _ & _ & -> & _).
    now rewrite LIMIT_nonneg.
  - intros Hd r. now apply LIKE_plain.
Qed.

(** C4 (amended) at a concrete input: [github.com] on [crt_sh], limit 2. *)
Lemma direct_query_filters_by_pattern_witness :
  nil_of_nils multierror.Append /\ healthy crt_sh /\ (0 <= 2)%Z
  /\ plain github_com = true
  /\ exists ordered,
       Permutation ordered [identity_old; identity_apex]
       /\ descending ordered
       /\ fst (Direct.getCertificates multierror.Append crt_sh github_com 2
                 start)
          = (map certificate (firstn 2 ordered), None).
Proof.
  split; [exact multierror_nil_of_nils|].
  split; [exact crt_sh_healthy|].
  split; [lia|].
  split; [reflexivity|].
  destruct (direct_query_filters_by_pattern multierror.Append crt_sh
              github_com 2 start multierror_nil_of_nils crt_sh_healthy
              ltac:(lia))
    as (ordered & HP & HS & HG & _).
  exists ordered. repeat split; assumption.
Defined.

(** C4 as stated fails: the row of [www.github.com] contains the domain
    name, and it has the highest [certificate_id], yet the pattern
    [github.com] does not match it; with limit 1 the code returns the
    certificate of the row named [github.com], where a substring filter
    would return that of [www.github.com]. *)
Lemma substring_row_is_not_selected :
  gobytes.Contains (list_ascii_of_string (name_value identity_www))
                   (list_ascii_of_string github_com) = true
  /\ sql.LIKE (name_value identity_www) github_com = false
  /\ fst (Direct.getCertificates multierror.Append crt_sh github_com 1 start)
     = ([certificate identity_apex], None)
  /\ certificateQuery_substring (certificate_and_identities crt_sh)
       github_com 1
     = inl [certificate identity_www].
Proof. repeat split. Qed.

(** C5 (the aggregated variant does not do this).  [getCertificates] of
    [main.go] never returns a row: it ends in [return nil, nil].  On the
    server of [crt_sh] the cursor delivers two rows, both are scanned and
    logged, the call succeeds, and the slice it returns is empty; the
    direct variant, asked the same, returns its two rows in cursor order. *)
Theorem aggregated_returns_no_rows :
  (forall Append env d L w,
      fst (fst (Aggregated.getCertificates Append env d L w)) = [])
  /\ Aggregated_cursor crt_sh github_com 2 = inl [issuance_1; issuance_2]
  /\ Aggregated.getCertificates multierror.Append crt_sh github_com 2 start
     = ([], None,
        {| calls := Aggregated_trace crt_sh github_com 2;
           out := [Println_row issuance_1; Println_row issuance_2] |})
  /\ Direct_cursor crt_sh github_com 2
     = inl [certificate identity_apex; certificate identity_old]
  /\ Direct.getCertificates multierror.Append crt_sh github_com 2 start
     = ([certificate identity_apex; certificate identity_old], None,
        {| calls := Direct_trace crt_sh github_com 2; out := [] |}).
Proof.
  split; [|repeat split].
  intros Append env d L w.
  now destruct (Aggregated_getCertificates_spec Append env d L w).
Qed.

(** C6.  For every byte sequence [der], the PEM text that [pem.Encode]
    writes for a block of type CERTIFICATE holding [der] decodes, with
    [pem.Decode], to a block of that type holding exactly [der], and no text
    is left over. *)
Theorem pem_round_trip :
  forall der : bytes,
    pem.Decode (pem.Encode {| pem.Type_ := Direct.CERTIFICATE;
                              pem.Bytes := der |})
    = Some ({| pem.Type_ := Direct.CERTIFICATE; pem.Bytes := der |}, []).
Proof.
  intros [|b der]; [reflexivity|].
  pose proof (Encode_nonempty b der) as Hne.
  pose proof (Encode_body_chars (b :: der)) as Hbody.
  pose proof (Decode_broken_lines (b :: der) 0) as Hdec.
  pose proof (broken_lines_no_colon _ Hbody 0) as Hcolon.
  pose proof (broken_lines_no_end_marker _ Hbody 0) as Hend.
  unfold pem.Encode. cbn [pem.Type_ pem.Bytes].
  rewrite (lineBreaker_broken_lines _ 0 Hne).
  destruct (base64.Encode (b :: der)) as [|c enc]; [contradiction|].
  inversion Hbody as [|? ? Hc _]; subst.
  change (broken_lines 0 (c :: enc)) with (c :: broken_lines 1 enc) in *.
  set (a := broken_lines 1 enc) in *.
  replace (tl pem.pemStart ++ Direct.CERTIFICATE ++ pem.pemEndOfLine ++ [nl]
           ++ ((c :: a) ++ [nl]) ++ tl pem.pemEnd ++ Direct.CERTIFICATE
           ++ pem.pemEndOfLine ++ [nl])
    with (tl pem.pemStart
          ++ (CERTIFICATE_line ++ nl :: (c :: a) ++ pem.pemEnd
              ++ CERTIFICATE_line ++ [nl])).
  2:{ unfold CERTIFICATE_line, pem.pemEnd. cbn [tl].
      rewrite <- !app_assoc. reflexivity. }
  unfold pem.Decode. cbn [pem.decodeLoop].
  change (gobytes.HasPrefix (tl pem.pemStart ++ ?x) (tl pem.pemStart))
    with true.
  change (skipn (List.length pem.pemStart - 1) (tl pem.pemStart ++ ?x)) with x.
  cbv iota.
  now rewrite (decodeRound_body c a (b :: der) Hc Hcolon Hend Hdec).
Qed.

(** C7 (amended).  Every run prints, in cursor order, the entries of a
    prefix of the cursor, a run that returns an error included: what has
    been printed before a failure stays printed.  A run that returns no
    error, and in which no [rows.Next] has ended the iteration before the
    last row, has printed one entry for every row of the cursor. *)
Theorem success_prints_every_row :
  forall Append parse env v p d L w,
    keeps_errors Append ->
    let f := {| verbose := v; limit := L; printPEM := p; Args := [d] |} in
    (exists certs k new,
        (certs = [] \/ Direct_cursor env d L = inl certs)
        /\ (k <= List.length certs)%nat
        /\ entries (snd (Direct.run Append parse env f w)) = entries w ++ new
        /\ map Some new = map (entry_of parse) (firstn k certs)
        /\ (fst (Direct.run Append parse env f w) = None ->
            (forall i, Next_err env i = None) ->
            Direct_cursor env d L = inl certs /\ k = List.length certs))
    /\ (exists rows k,
        (rows = [] \/ Aggregated_cursor env d L = inl rows)
        /\ (k <= List.length rows)%nat
        /\ entries (snd (Aggregated.run Append env f w))
           = entries w ++ map Println_row (firstn k rows)
        /\ (fst (Aggregated.run Append env f w) = None ->
            (forall i, Next_err env i = None) ->
            Aggregated_cursor env d L = inl rows /\ k = List.length rows)).
Proof.
  intros Append parse env v p d L w K f. unfold f. split.
  - rewrite Direct_run_one. cbv zeta.
    assert (E : entries (snd (Direct.getCertificates Append env d L w))
                = entries w)
      by (unfold entries; now rewrite Direct_getCertificates_out).
    destruct (Direct.getCertificates Append env d L w) as [[certs err] w1] eqn:G.
    cbn [fst snd] in *. destruct err as [e|].
    + exists [], 0%nat, []. simpl. rewrite E, app_nil_r.
      repeat split; auto; discriminate.
    + destruct (Direct_getCertificates_success Append env d L w certs w1 K G)
        as (rows & k0 & HC & Hk0 & Hcerts & _ & Hall).
      destruct (Direct_printCertificates_entries parse env p certs 0 w1)
        as (k & new & Hk & He & Hm & Hn & _).
      exists rows, (Nat.min k k0), new.
      rewrite He, E, <- firstn_firstn, <- Hcerts.
      split; [now right|]. split; [lia|]. split; [reflexivity|].
      split; [exact Hm|].
      intros Hnil HN. split; [exact HC|].
      specialize (Hn Hnil). specialize (Hall HN).
      rewrite Hall in Hn, Hcerts.
      apply (f_equal (@List.length _)) in Hcerts.
      rewrite length_firstn in Hcerts. lia.
  - rewrite Aggregated_run_one. cbv zeta.
    destruct (Aggregated_getCertificates_spec Append env d L w)
      as (_ & k & rows & Hk & He & Hrows & Hn).
    exists rows, k.
    destruct (snd (fst (Aggregated.getCertificates Append env d L w)));
      cbn [fst snd].
    + repeat split; auto; discriminate.
    + rewrite entries_log. simpl. rewrite app_nil_r.
      destruct (Hn eq_refl) as (H1 & _ & H2). repeat split; auto.
Qed.

(** C7 (amended) at a concrete input: a run that succeeds on [crt_sh]
    with limit 1 has printed the entry of the one certificate. *)
Lemma success_prints_every_row_witness :
  keeps_errors multierror.Append
  /\ fst (Direct.run multierror.Append parse_nonempty crt_sh
            (flags 1 [github_com]) start) = None
  /\ (forall i, Next_err crt_sh i = None)
  /\ exists new,
       entries (snd (Direct.run multierror.Append parse_nonempty crt_sh
                       (flags 1 [github_com]) start)) = new
       /\ map Some new
          = map (entry_of parse_nonempty) [certificate identity_apex].
Proof.
  split; [exact multierror_keeps_errors|].
  split; [reflexivity|].
  split; [reflexivity|].
  destruct (success_prints_every_row multierror.Append parse_nonempty crt_sh
              false false github_com 1 start multierror_keeps_errors)
    as [(certs & k & new & _ & _ & He & Hm & Hn) _].
  destruct (Hn eq_refl (fun _ => eq_refl)) as [HC ->].
  assert (certs = [certificate identity_apex]) as -> by
      (vm_compute in HC; now injection HC).
  exists new. split; [exact He | exact Hm].
Defined.

(** C7 as stated fails: in [main.go] the second row of the cursor does not
    scan; the run is reported as failed (status 1) after the entry of the
    first row has been printed. *)
Lemma entry_printed_before_failure :
  Aggregated.main multierror.Append second_scan_fails
    (flags 2 [github_com]) start
  = (1%Z,
     {| calls := Aggregated_trace second_scan_fails github_com 2;
        out := [Println_row issuance_1;
                Fatal (fmt_Errorf
                  "could not getCertificates of (%v) error (%w)" [github_com]
                  (fmt_Errorf "could not scan row (%w)" []
                     (errors_New "sql: Scan error on column index 4")))] |})
  /\ entries (snd (Aggregated.main multierror.Append second_scan_fails
                     (flags 2 [github_com]) start))
     = [Println_row issuance_1].
Proof. split; reflexivity. Qed.

(** C8.  When the query returns zero rows and no driver call fails, the
    process prints no certificate or row entry and exits with status 0: the
    direct variant prints nothing at all, [main.go] prints only the empty
    slice it got back. *)
Theorem zero_rows_is_success :
  forall Append parse env v p d L w,
    nil_of_nils Append ->
    healthy env ->
    let f := {| verbose := v; limit := L; printPEM := p; Args := [d] |} in
    (Direct_cursor env d L = inl [] ->
     Direct.main Append parse env f w
     = (0%Z, {| calls := calls w ++ Direct_trace env d L; out := out w |}))
    /\ (Aggregated_cursor env d L = inl [] ->
        Aggregated.main Append env f w
        = (0%Z, {| calls := calls w ++ Aggregated_trace env d L;
                   out := out w ++ [Println_certs []] |})
        /\ entries (snd (Aggregated.main Append env f w)) = entries w).
Proof.
  intros Append parse env v p d L w N H f. unfold f. split.
  - intros HC. unfold Direct.main. unfold bind at 1.
    rewrite Direct_run_one.
    rewrite (Direct_getCertificates_healthy Append env d L w [] N H HC).
    reflexivity.
  - intros HC.
    assert (E : Aggregated.main Append env
                  {| verbose := v; limit := L; printPEM := p; Args := [d] |} w
                = (0%Z, {| calls := calls w ++ Aggregated_trace env d L;
                           out := out w ++ [Println_certs []] |})).
    { unfold Aggregated.main. unfold bind at 1.
      rewrite Aggregated_run_one.
      rewrite (Aggregated_getCertificates_healthy Append env d L w [] H HC).
      simpl. now rewrite app_nil_r. }
    rewrite E. split; [reflexivity|].
    unfold entries. simpl. rewrite filter_app. simpl. apply app_nil_r.
Qed.

(** C8 at a concrete input: the empty server. *)
Lemma zero_rows_is_success_witness :
  nil_of_nils multierror.Append
  /\ healthy crt_sh_empty
  /\ Direct_cursor crt_sh_empty github_com 1 = inl []
  /\ Direct.main multierror.Append parse_nonempty crt_sh_empty
       (flags 1 [github_com]) start
     = (0%Z, {| calls := Direct_trace crt_sh_empty github_com 1; out := [] |})
  /\ Aggregated_cursor crt_sh_empty github_com 1 = inl []
  /\ Aggregated.main multierror.Append crt_sh_empty
       (flags 1 [github_com]) start
     = (0%Z, {| calls := Aggregated_trace crt_sh_empty github_com 1;
                out := [Println_certs []] |}).
Proof.
  pose proof (zero_rows_is_success multierror.Append parse_nonempty
                crt_sh_empty false false github_com 1 start
                multierror_nil_of_nils crt_sh_empty_healthy) as [HD HA].
  split; [exact multierror_nil_of_nils|].
  split; [exact crt_sh_empty_healthy|].
  split; [reflexivity|].
  split; [exact (HD eq_refl)|].
  split; [reflexivity|].
  exact (proj1 (HA eq_refl)).
Defined.

(** C9 (the code does not do this once the rows are being read).  A
    cancellation that arrives before the query is sent comes back from
    [QueryContext] as the context's error, and both variants report it and
    exit with status 1.  A cancellation that arrives while the rows are read
    makes [rows.Next] return [false]; the loop ends as at the end of the
    rows, [rows.Err] is not read, and the run succeeds without a word:
    [main.go] logs the one row it has read and exits with status 0, and
    [getCertificates] of the direct variant returns the one row it has read
    with a [nil] error, although the cursor holds two. *)
Theorem cancellation_while_reading_is_silent :
  Aggregated_cursor cancelled_after_first_row github_com 2
  = inl [issuance_1; issuance_2]
  /\ (forall Append,
        Aggregated.main Append cancelled_after_first_row
          (flags 2 [github_com]) start
        = (0%Z,
           {| calls := Aggregated_trace cancelled_after_first_row github_com 2;
              out := [Println_row issuance_1; Println_certs []] |}))
  /\ Direct_cursor cancelled_after_first_row github_com 2
     = inl [certificate identity_apex; certificate identity_old]
  /\ Direct.getCertificates multierror.Append cancelled_after_first_row
       github_com 2 start
     = ([certificate identity_apex], None,
        {| calls := Direct_trace cancelled_after_first_row github_com 2;
           out := [] |})
  /\ (forall Append,
        Aggregated.main Append cancelled_before_query
          (flags 2 [github_com]) start
        = (1%Z,
           {| calls := Aggregated_trace cancelled_before_query github_com 2;
              out := [Fatal
                (fmt_Errorf "could not getCertificates of (%v) error (%w)"
                   [github_com]
                   (fmt_Errorf
                      "could not execute SQL on postgres for finding certificates (%w)"
                      [] context_Canceled))] |}))
  /\ (forall Append parse,
        Direct.main Append parse cancelled_before_query
          (flags 2 [github_com]) start
        = (1%Z,
           {| calls := Direct_trace cancelled_before_query github_com 2;
              out := [Fatal
                (fmt_Errorf "could not getCertificates of (%v) error (%w)"
                   [github_com]
                   (fmt_Errorf
                      "could not execute SQL on postgres for finding certificates (%w)"
                      [] context_Canceled))] |})).
Proof. repeat split. Qed.

(** C10.  [run] does not look at the value of [-n]: with one positional
    argument and any integer [n], zero and negative ones included, the
    result is never the usage error, [getCertificates] is called with [n],
    and every query sent to the driver carries [d] and [n] unchanged. *)
Theorem limit_is_not_validated :
  forall Append parse env v p d n w,
    let f := {| verbose := v; limit := n; printPEM := p; Args := [d] |} in
    fst (Direct.run Append parse env f w) <> Some Direct.errExpectedArguments
    /\ fst (Aggregated.run Append env f w)
       <> Some Aggregated.errExpectedArguments
    /\ calls (snd (Direct.run Append parse env f w))
       = calls (snd (Direct.getCertificates Append env d n w))
    /\ calls (snd (Aggregated.run Append env f w))
       = calls (snd (Aggregated.getCertificates Append env d n w))
    /\ calls (snd (Direct.run Append parse env f w))
       = calls w ++ Direct_trace env d n
    /\ calls (snd (Aggregated.run Append env f w))
       = calls w ++ Aggregated_trace env d n
    /\ (forall d' n', In (QueryContext d' n') (Direct_trace env d n) ->
          d' = d /\ n' = n)
    /\ (forall d' n', In (QueryContext d' n') (Aggregated_trace env d n) ->
          d' = d /\ n' = n).
Proof.
  intros Append parse env v p d n w f. unfold f.
  rewrite Direct_run_calls, Aggregated_run_calls,
    Direct_getCertificates_calls, Aggregated_getCertificates_calls.
  rewrite Direct_run_one, Aggregated_run_one. cbv zeta.
  repeat split; try reflexivity.
  - destruct (snd (fst (Direct.getCertificates Append env d n w))).
    + discriminate.
    + intros H.
      apply Direct_printCertificates_error in H
        as [(der & e' & _ & _ & H)|(_ & j & k & e' & _ & H)]; discriminate.
  - destruct (snd (fst (Aggregated.getCertificates Append env d n w)));
      discriminate.
  - unfold Direct_trace in H.
    destruct (Open_err env); simpl in H; [intuition discriminate|].
    destruct (Direct_cursor env d n); simpl in H;
      intuition (try discriminate); congruence.
  - unfold Direct_trace in H.
    destruct (Open_err env); simpl in H; [intuition discriminate|].
    destruct (Direct_cursor env d n); simpl in H;
      intuition (try discriminate); congruence.
  - unfold Aggregated_trace in H.
    destruct (Open_err env); simpl in H; [intuition discriminate|].
    destruct (Prepare_err env); simpl in H; [intuition discriminate|].
    destruct (Aggregated_cursor env d n); simpl in H;
      intuition (try discriminate); congruence.
  - unfold Aggregated_trace in H.
    destruct (Open_err env); simpl in H; [intuition discriminate|].
    destruct (Prepare_err env); simpl in H; [intuition discriminate|].
    destruct (Aggregated_cursor env d n); simpl in H;
      intuition (try discriminate); congruence.
Qed.

(** * Further properties of the code *)

(** In the direct variant the results of [getCertificates] are named, and
    no failure is lost on the way out.  For an [Append] that keeps an error
    it is given, reports a single error and makes nothing out of [nil], the
    returned error is [nil] exactly when [sql.Open], the query, every
    [rows.Scan] that was reached and [db.Close] have succeeded: a failing
    [db.Close] alone fails the call, and no cleanup turns a failure of the
    body into success. *)
Theorem direct_cleanup_errors_are_returned :
  forall Append env d L w,
    keeps_errors Append -> nil_of_nils Append -> reports_errors Append ->
    snd (fst (Direct.getCertificates Append env d L w)) = None
    <-> Open_err env = None /\ db_Close_err env = None
        /\ exists rows,
             Direct_cursor env d L = inl rows
             /\ forall k e,
                  first_stop env 0 (List.length rows)
                  <> Some (k, Scan_failed e).
Proof.
  intros Append env d L w K N R.
  unfold Direct_cursor, Direct.getCertificates, Direct.db_QueryContext,
    defer, bind, ret, call; simpl.
  destruct (Open_err env) as [e0|]; simpl.
  { split; [discriminate | now intros [H _]]. }
  destruct (Query_err env) as [eq|]; simpl.
  { split.
    - destruct (db_Close_err env); simpl; [intros H; now apply K in H|].
      discriminate.
    - intros (_ & _ & rows & H & _). discriminate. }
  destruct (Direct.certificateQuery _ d L) as [rows|e]; simpl.
  2:{ split.
      - destruct (db_Close_err env); simpl; [intros H; now apply K in H|].
        discriminate.
      - intros (_ & _ & rows & H & _). discriminate. }
  rewrite Direct_scanRows_outcome.
  destruct (first_stop env 0 (List.length rows)) as [[k [e|e]]|] eqn:F;
    cbn [fst snd Direct.rows_Close_result].
  - rewrite N.
    destruct (db_Close_err env) as [e2|]; simpl; split.
    + intros H. now apply R in H.
    + intros (_ & H & _). discriminate.
    + intros _. repeat split. exists rows. split; [reflexivity|].
      intros k' e'. rewrite F. discriminate.
    + reflexivity.
  - destruct (Append (Some (fmt_Errorf "could not scan row (%w)" [] e))
                [rows_Close_err env]) as [e1|] eqn:A; [|now apply K in A].
    split.
    + destruct (db_Close_err env); simpl; [intros H; now apply K in H|].
      discriminate.
    + intros (_ & _ & rows' & H & H'). injection H as <-.
      now destruct (H' k e).
  - rewrite N.
    destruct (db_Close_err env) as [e2|]; simpl; split.
    + intros H. now apply R in H.
    + intros (_ & H & _). discriminate.
    + intros _. repeat split. exists rows. split; [reflexivity|].
      intros k' e'. rewrite F. discriminate.
    + reflexivity.
Qed.

Lemma multierror_reports_errors : reports_errors multierror.Append.
Proof. intros e. discriminate. Qed.

(** The same at concrete inputs: on [crt_sh] the call succeeds, behind a
    driver whose [db.Close] fails it does not. *)
Lemma direct_cleanup_errors_are_returned_witness :
  keeps_errors multierror.Append /\ nil_of_nils multierror.Append
  /\ reports_errors multierror.Append
  /\ snd (fst (Direct.getCertificates multierror.Append crt_sh github_com 2
                 start)) = None
  /\ snd (fst (Direct.getCertificates multierror.Append crt_sh_close_fails
                 github_com 2 start))
     = Some (multiError [errors_New "pq: connection reset"])
  /\ (snd (fst (Direct.getCertificates multierror.Append crt_sh_close_fails
                  github_com 2 start)) = None
      <-> Open_err crt_sh_close_fails = None
          /\ db_Close_err crt_sh_close_fails = None
          /\ exists rows,
               Direct_cursor crt_sh_close_fails github_com 2 = inl rows
               /\ forall k e,
                    first_stop crt_sh_close_fails 0 (List.length rows)
                    <> Some (k, Scan_failed e)).
Proof.
  split; [exact multierror_keeps_errors|].
  split; [exact multierror_nil_of_nils|].
  split; [exact multierror_reports_errors|].
  split; [reflexivity|].
  split; [reflexivity|].
  exact (direct_cleanup_errors_are_returned multierror.Append
           crt_sh_close_fails github_com 2 start multierror_keeps_errors
           multierror_nil_of_nils multierror_reports_errors).
Defined.

(** Every exit path of [getCertificates] releases what it acquired, once
    and in reverse order of acquisition: the calls that reach the driver
    are those of [Direct_trace] and [Aggregated_trace], in which [db.Close]
    follows every successful [sql.Open], [stmt.Close] every successful
    [PrepareContext] and [rows.Close] every successful [QueryContext],
    whatever fails afterwards. *)
Theorem resources_are_released_once :
  forall Append env d L w,
    calls (snd (Direct.getCertificates Append env d L w))
    = calls w ++ Direct_trace env d L
    /\ calls (snd (Aggregated.getCertificates Append env d L w))
       = calls w ++ Aggregated_trace env d L.
Proof.
  intros. split.
  - apply Direct_getCertificates_calls.
  - apply Aggregated_getCertificates_calls.
Qed.

(** Every error that [run] returns once the argument count is right names
    the step that failed.  In the direct variant it is the error of
    [getCertificates] wrapped with the domain name, or the error of
    [x509.ParseCertificate] on one of the returned certificates wrapped as a
    parse failure, or (with [-pem]) the error of a failed write wrapped as a
    PEM failure.  In [main.go] it is always the error of [getCertificates]
    wrapped with the domain name. *)
Theorem errors_are_wrapped_with_context :
  forall Append parse env v p d L w e,
    let f := {| verbose := v; limit := L; printPEM := p; Args := [d] |} in
    (fst (Direct.run Append parse env f w) = Some e ->
     (exists e',
         snd (fst (Direct.getCertificates Append env d L w)) = Some e'
         /\ e = fmt_Errorf "could not getCertificates of (%v) error (%w)"
                  [d] e')
     \/ (exists der e',
            In der (fst (fst (Direct.getCertificates Append env d L w)))
            /\ parse der = inr e'
            /\ e = fmt_Errorf "could not parse x509 certificate (%w)" [] e')
     \/ (p = true
         /\ exists j n e',
              Write_err env j = Some (n, e')
              /\ e = fmt_Errorf "could not encode PEM (%w)" [] e'))
    /\ (fst (Aggregated.run Append env f w) = Some e ->
        exists e',
          snd (fst (Aggregated.getCertificates Append env d L w)) = Some e'
          /\ e = fmt_Errorf "could not getCertificates of (%v) error (%w)"
                   [d] e').
Proof.
  intros Append parse env v p d L w e f. unfold f.
  rewrite Direct_run_one, Aggregated_run_one. cbv zeta. split; intros H.
  - destruct (snd (fst (Direct.getCertificates Append env d L w))) as [e'|].
    + injection H as <-. left. eauto.
    + right. now apply Direct_printCertificates_error in H.
  - destruct (snd (fst (Aggregated.getCertificates Append env d L w)))
      as [e'|]; [|discriminate].
    injection H as <-. eauto.
Qed.

(** The same at a concrete input: the run in which the second row does not
    scan. *)
Lemma errors_are_wrapped_with_context_witness :
  fst (Aggregated.run multierror.Append second_scan_fails
         (flags 2 [github_com]) start)
  = Some (fmt_Errorf "could not getCertificates of (%v) error (%w)"
            [github_com]
            (fmt_Errorf "could not scan row (%w)" []
               (errors_New "sql: Scan error on column index 4")))
  /\ exists e',
       snd (fst (Aggregated.getCertificates multierror.Append
                   second_scan_fails github_com 2 start)) = Some e'
       /\ fmt_Errorf "could not getCertificates of (%v) error (%w)"
            [github_com]
            (fmt_Errorf "could not scan row (%w)" []
               (errors_New "sql: Scan error on column index 4"))
          = fmt_Errorf "could not getCertificates of (%v) error (%w)"
              [github_com] e'.
Proof.
  split; [reflexivity|].
  apply (proj2 (errors_are_wrapped_with_context multierror.Append
                  parse_nonempty second_scan_fails false false github_com 2
                  start _)).
  reflexivity.
Defined.

(** ** The scan loops, position by position *)

Lemma Aggregated_scanRows_outcome env rows : forall i w,
  Aggregated.scanRows env i rows w
  = match first_stop env i (List.length rows) with
    | Some (k, Scan_failed e) =>
        ({| Aggregated.err := Some e;
            Aggregated.results :=
              ([], Some (fmt_Errorf "could not scan row (%w)" [] e));
            Aggregated.rows_open := true |},
         {| calls := calls w;
            out := out w ++ map Println_row (firstn (k - i) rows) |})
    | Some (k, Next_failed _) =>
        ({| Aggregated.err := None; Aggregated.results := ([], None);
            Aggregated.rows_open := false |},
         {| calls := calls w;
            out := out w ++ map Println_row (firstn (k - i) rows) |})
    | None =>
        ({| Aggregated.err := None; Aggregated.results := ([], None);
            Aggregated.rows_open := false |},
         {| calls := calls w; out := out w ++ map Println_row rows |})
    end.
Proof.
  induction rows as [|row rows IH]; intros i w.
  - simpl. rewrite app_nil_r. now destruct w.
  - rewrite Aggregated_scanRows_cons. cbn [List.length first_stop].
    destruct (Next_err env i) as [e|] eqn:N.
    { rewrite Nat.sub_diag. simpl. rewrite app_nil_r. now destruct w. }
    destruct (Scan_err env i) as [e|] eqn:E.
    + rewrite Nat.sub_diag. simpl. rewrite app_nil_r. now destruct w.
    + rewrite IH.
      destruct (first_stop env (S i) (List.length rows)) as [[k [e|e]]|] eqn:F;
        try (apply first_stop_some in F as (Hk & _);
             replace (k - i) with (S (k - S i)) by lia);
        simpl; now rewrite <- app_assoc.
Qed.

Lemma Aggregated_getCertificates_outcome :
  forall Append env d L w,
    Aggregated.getCertificates Append env d L w
    = ([], fst (Aggregated_outcome env d L),
       {| calls := calls w ++ Aggregated_trace env d L;
          out := out w ++ snd (Aggregated_outcome env d L) |}).
Proof.
  intros Append env d L w.
  unfold Aggregated_outcome, Aggregated_trace, Aggregated_cursor,
    Aggregated.getCertificates, Aggregated.stmt_QueryContext,
    defer, bind, ret, call, log. simpl.
  destruct (Open_err env); simpl.
  { now rewrite app_nil_r. }
  destruct (Prepare_err env); simpl.
  { destruct (db_Close_err env); simpl; now rewrite <- !app_assoc. }
  destruct (match Query_err env with Some e => _ | None => _ end)
    as [rows|e]; simpl.
  2:{ destruct (db_Close_err env); simpl; now rewrite <- !app_assoc, app_nil_r. }
  destruct (Columns_err env); simpl.
  { destruct (db_Close_err env); simpl; now rewrite <- !app_assoc, app_nil_r. }
  rewrite Aggregated_scanRows_outcome.
  destruct (first_stop env 0 (List.length rows)) as [[k [e|e]]|]; simpl;
    rewrite ?Nat.sub_0_r;
    destruct (db_Close_err env); simpl; now rewrite <- !app_assoc.
Qed.

(** In [main.go] the first step that fails decides what [getCertificates]
    comes to.  It returns no row.  When [sql.Open], [PrepareContext],
    [QueryContext], [rows.Columns] or a [rows.Scan] fails it returns that
    step's wrapped error; when a [rows.Next] fails the loop ends as at the
    end of the rows and it returns [nil].  It has logged exactly the rows
    before the first position at which [rows.Next] or [rows.Scan] fails, and
    it has made the driver calls of [Aggregated_trace].  Neither [Append]
    nor the outcome of a [Close] call has a part in the result. *)
Theorem aggregated_first_failure_decides :
  forall Append env d L w,
    Aggregated.getCertificates Append env d L w
    = ([], fst (Aggregated_outcome env d L),
       {| calls := calls w ++ Aggregated_trace env d L;
          out := out w ++ snd (Aggregated_outcome env d L) |}).
Proof. exact Aggregated_getCertificates_outcome. Qed.

(** A run of [main.go] in which opening, preparing, querying, reading the
    columns, every [rows.Next] and every [rows.Scan] succeed logs every row
    of the cursor in order, then the line of the empty slice it got back,
    and exits with status 0, also when [Close] calls fail. *)
Theorem aggregated_success_output :
  forall Append env v p d L w rows,
    Open_err env = None -> Prepare_err env = None ->
    Aggregated_cursor env d L = inl rows ->
    Columns_err env = None ->
    (forall i, Next_err env i = None) ->
    (forall i, Scan_err env i = None) ->
    Aggregated.main Append env
      {| verbose := v; limit := L; printPEM := p; Args := [d] |} w
    = (0%Z, {| calls := calls w ++ Aggregated_trace env d L;
               out := out w ++ map Println_row rows ++ [Println_certs []] |}).
Proof.
  intros Append env v p d L w rows HO HP HC HCo HN HS.
  unfold Aggregated.main. unfold bind at 1.
  rewrite Aggregated_run_one, Aggregated_getCertificates_outcome.
  unfold Aggregated_outcome.
  rewrite HO, HP, HC, HCo, (first_stop_none env _ 0 HN HS).
  simpl. now rewrite <- app_assoc.
Qed.

Lemma aggregated_success_output_witness :
  Aggregated_cursor crt_sh_close_fails github_com 2
  = inl [issuance_1; issuance_2]
  /\ Aggregated.main multierror.Append crt_sh_close_fails
       (flags 2 [github_com]) start
     = (0%Z, {| calls := Aggregated_trace crt_sh_close_fails github_com 2;
                out := [Println_row issuance_1; Println_row issuance_2;
                        Println_certs []] |}).
Proof.
  split; [reflexivity|].
  apply (aggregated_success_output multierror.Append crt_sh_close_fails
           false false github_com 2 start [issuance_1; issuance_2]);
    reflexivity.
Defined.

(** When [rows.Next] returns [false] before the last row (a read error, a
    cancelled context) and nothing else fails, neither variant reports it:
    [rows.Err] is not read.  [main.go] logs the rows read so far and the
    empty slice and exits with status 0; [getCertificates] of the direct
    variant returns the rows read so far with a [nil] error. *)
Theorem read_error_ends_the_loop_silently :
  forall Append env v p d L w k e,
    nil_of_nils Append ->
    Open_err env = None -> db_Close_err env = None ->
    (forall rows,
        Prepare_err env = None -> Columns_err env = None ->
        Aggregated_cursor env d L = inl rows ->
        first_stop env 0 (List.length rows) = Some (k, Next_failed e) ->
        Aggregated.main Append env
          {| verbose := v; limit := L; printPEM := p; Args := [d] |} w
        = (0%Z, {| calls := calls w ++ Aggregated_trace env d L;
                   out := out w ++ map Println_row (firstn k rows)
                          ++ [Println_certs []] |}))
    /\ (forall rows,
        Direct_cursor env d L = inl rows ->
        first_stop env 0 (List.length rows) = Some (k, Next_failed e) ->
        Direct.getCertificates Append env d L w
        = (firstn k rows, None,
           {| calls := calls w ++ Direct_trace env d L; out := out w |})).
Proof.
  intros Append env v p d L w k e N HO HD. split.
  - intros rows HP HCo HC F.
    unfold Aggregated.main. unfold bind at 1.
    rewrite Aggregated_run_one, Aggregated_getCertificates_outcome.
    unfold Aggregated_outcome.
    rewrite HO, HP, HC, HCo, F.
    simpl. now rewrite <- app_assoc.
  - intros rows HC F.
    unfold Direct_trace. rewrite HC, HO.
    unfold Direct_cursor in HC.
    unfold Direct.getCertificates, Direct.db_QueryContext,
      defer, bind, ret, call; simpl.
    rewrite HO; simpl.
    destruct (Query_err env); [discriminate|]. rewrite HC; simpl.
    rewrite Direct_scanRows_outcome, F, HD; simpl.
    rewrite N, Nat.sub_0_r, <- !app_assoc. reflexivity.
Qed.

Lemma read_error_ends_the_loop_silently_witness :
  nil_of_nils multierror.Append
  /\ first_stop cancelled_after_first_row 0 2
     = Some (1, Next_failed context_Canceled)
  /\ Aggregated.main multierror.Append cancelled_after_first_row
       (flags 2 [github_com]) start
     = (0%Z,
        {| calls := Aggregated_trace cancelled_after_first_row github_com 2;
           out := [Println_row issuance_1; Println_certs []] |})
  /\ Direct.getCertificates multierror.Append cancelled_after_first_row
       github_com 2 start
     = ([certificate identity_apex], None,
        {| calls := Direct_trace cancelled_after_first_row github_com 2;
           out := [] |}).
Proof.
  pose proof (read_error_ends_the_loop_silently multierror.Append
                cancelled_after_first_row false false github_com 2 start 1
                context_Canceled multierror_nil_of_nils eq_refl eq_refl)
    as [HA HD].
  split; [exact multierror_nil_of_nils|].
  split; [reflexivity|].
  split.
  - exact (HA [issuance_1; issuance_2] eq_refl eq_refl eq_refl eq_refl).
  - exact (HD [certificate identity_apex; certificate identity_old]
              eq_refl eq_refl).
Defined.

(** ** The direct variant: failures of the database *)

(** In the direct variant an error of [getCertificates] ends the run before
    anything is printed: [run] returns it wrapped with the domain name and
    the log is as it was. *)
Theorem direct_fetch_failure_prints_nothing :
  forall Append parse env v p d L w e,
    snd (fst (Direct.getCertificates Append env d L w)) = Some e ->
    Direct.run Append parse env
      {| verbose := v; limit := L; printPEM := p; Args := [d] |} w
    = (Some (fmt_Errorf "could not getCertificates of (%v) error (%w)" [d] e),
       {| calls := calls w ++ Direct_trace env d L; out := out w |}).
Proof.
  intros Append parse env v p d L w e H.
  rewrite Direct_run_one. cbv zeta. rewrite H. f_equal.
  rewrite <- (Direct_getCertificates_calls Append env d L w),
    <- (Direct_getCertificates_out Append env d L w).
  now destruct (snd (Direct.getCertificates Append env d L w)).
Qed.

Lemma direct_fetch_failure_prints_nothing_witness :
  snd (fst (Direct.getCertificates multierror.Append second_scan_fails
              github_com 2 start))
  = Some (multiError
            [fmt_Errorf "could not scan row (%w)" []
               (errors_New "sql: Scan error on column index 4")])
  /\ Direct.run multierror.Append parse_nonempty second_scan_fails
       (flags 2 [github_com]) start
     = (Some (fmt_Errorf "could not getCertificates of (%v) error (%w)"
                [github_com]
                (multiError
                   [fmt_Errorf "could not scan row (%w)" []
                      (errors_New "sql: Scan error on column index 4")])),
        {| calls := Direct_trace second_scan_fails github_com 2; out := [] |}).
Proof.
  split; [reflexivity|].
  apply (direct_fetch_failure_prints_nothing multierror.Append parse_nonempty
           second_scan_fails false false github_com 2 start).
  reflexivity.
Defined.

(** In the direct variant a failing [db.Close] is enough to fail a lookup
    in which everything else went well: [getCertificates] returns all the
    rows of the cursor together with the error that [Append] makes of the
    one of [db.Close], and [run] drops the rows, prints nothing and returns
    that error wrapped with the domain name. *)
Theorem direct_cleanup_failure_fails_the_run :
  forall Append parse env v p d L w rows e2,
    reports_errors Append -> nil_of_nils Append ->
    Open_err env = None ->
    Direct_cursor env d L = inl rows ->
    (forall i, Next_err env i = None) ->
    (forall i, Scan_err env i = None) ->
    db_Close_err env = Some e2 ->
    fst (fst (Direct.getCertificates Append env d L w)) = rows
    /\ exists e,
         Append None [Some e2] = Some e
         /\ Direct.run Append parse env
              {| verbose := v; limit := L; printPEM := p; Args := [d] |} w
            = (Some (fmt_Errorf "could not getCertificates of (%v) error (%w)"
                       [d] e),
               {| calls := calls w ++ Direct_trace env d L; out := out w |}).
Proof.
  intros Append parse env v p d L w rows e2 R N HO HC HN HS HD.
  destruct (Append None [Some e2]) as [e|] eqn:A; [|now apply R in A].
  assert (G : fst (Direct.getCertificates Append env d L w) = (rows, Some e)).
  { unfold Direct_cursor in HC.
    unfold Direct.getCertificates, Direct.db_QueryContext,
      defer, bind, ret, call; simpl.
    rewrite HO; simpl.
    destruct (Query_err env); [discriminate|]. rewrite HC; simpl.
    rewrite (Direct_scanRows_ok env rows 0 [] HN HS), HD; simpl.
    now rewrite N, A. }
  split; [now rewrite G|].
  exists e. split; [reflexivity|].
  rewrite Direct_run_one. cbv zeta. rewrite G. cbn [fst snd]. f_equal.
  rewrite <- (Direct_getCertificates_calls Append env d L w),
    <- (Direct_getCertificates_out Append env d L w).
  now destruct (snd (Direct.getCertificates Append env d L w)).
Qed.

Lemma direct_cleanup_failure_fails_the_run_witness :
  reports_errors multierror.Append /\ nil_of_nils multierror.Append
  /\ Direct_cursor crt_sh_close_fails github_com 2
     = inl [certificate identity_apex; certificate identity_old]
  /\ db_Close_err crt_sh_close_fails
     = Some (errors_New "pq: connection reset")
  /\ fst (fst (Direct.getCertificates multierror.Append crt_sh_close_fails
                 github_com 2 start))
     = [certificate identity_apex; certificate identity_old]
  /\ exists e,
       multierror.Append None [Some (errors_New "pq: connection reset")]
       = Some e
       /\ Direct.run multierror.Append parse_nonempty crt_sh_close_fails
            (flags 2 [github_com]) start
          = (Some (fmt_Errorf "could not getCertificates of (%v) error (%w)"
                     [github_com] e),
             {| calls := Direct_trace crt_sh_close_fails github_com 2;
                out := [] |}).
Proof.
  split; [exact multierror_reports_errors|].
  split; [exact multierror_nil_of_nils|].
  split; [reflexivity|].
  split; [reflexivity|].
  apply (direct_cleanup_failure_fails_the_run multierror.Append parse_nonempty
           crt_sh_close_fails false false github_com 2 start
           [certificate identity_apex; certificate identity_old]
           (errors_New "pq: connection reset")
           multierror_reports_errors multierror_nil_of_nils);
    reflexivity.
Defined.

(** ** The direct variant: the print loop *)

Lemma certificate_lines_ok parse p der cert :
  parse der = inl cert ->
  certificate_lines parse p der
  = Printf_entry (Subject_CommonName cert) (NotBefore cert)
    :: (if p
        then [PEM_block (pem.Encode {| pem.Type_ := Direct.CERTIFICATE;
                                       pem.Bytes := der |})]
        else []).
Proof. intros H. unfold certificate_lines. now rewrite H. Qed.

(** Over certificates that parse and are written, the loop logs their lines
    and goes on with what follows them. *)
Lemma Direct_printCertificates_app parse env p pre rest : forall i w,
  Forall (parses parse) pre ->
  (p = true -> forall j, i <= j < i + List.length pre -> Write_err env j = None) ->
  Direct.printCertificates parse env p i (pre ++ rest) w
  = Direct.printCertificates parse env p (i + List.length pre) rest
      {| calls := calls w;
         out := out w ++ flat_map (certificate_lines parse p) pre |}.
Proof.
  induction pre as [|der pre IH]; intros i w HP HW.
  - simpl. rewrite Nat.add_0_r, app_nil_r. now destruct w.
  - inversion HP as [|? ? [cert Hc] HP']; subst.
    cbn [app]. rewrite Direct_printCertificates_cons, Hc. cbv zeta.
    cbn [flat_map]. rewrite (certificate_lines_ok _ _ _ _ Hc).
    cbn [List.length]. replace (i + S (List.length pre)) with (S i + List.length pre) by lia.
    destruct p.
    + rewrite (HW eq_refl i) by (simpl; lia).
      rewrite IH; [|assumption|intros _ j Hj; apply HW; simpl; [reflexivity|lia]].
      unfold log; simpl. now rewrite <- !app_assoc.
    + rewrite IH; [|assumption|discriminate].
      unfold log; simpl. now rewrite <- !app_assoc.
Qed.

Lemma Direct_printCertificates_all parse env p ders w :
  Forall (parses parse) ders ->
  (forall j, Write_err env j = None) ->
  Direct.printCertificates parse env p 0 ders w
  = (None, {| calls := calls w;
              out := out w ++ flat_map (certificate_lines parse p) ders |}).
Proof.
  intros HP HW.
  pose proof (Direct_printCertificates_app parse env p ders [] 0 w HP
                (fun _ j _ => HW j)) as E.
  rewrite app_nil_r in E. exact E.
Qed.

(** A run of the direct variant in which no driver call and no write fails
    and every certificate parses: it logs, for each certificate of the
    cursor in order, its entry followed (with [-pem]) by its PEM block,
    nothing else, and exits with status 0. *)
Theorem direct_success_output :
  forall Append parse env v p d L w ders,
    nil_of_nils Append -> healthy env ->
    Direct_cursor env d L = inl ders ->
    Forall (parses parse) ders ->
    Direct.main Append parse env
      {| verbose := v; limit := L; printPEM := p; Args := [d] |} w
    = (0%Z, {| calls := calls w ++ Direct_trace env d L;
               out := out w ++ flat_map (certificate_lines parse p) ders |}).
Proof.
  intros Append parse env v p d L w ders N H HC HP.
  unfold Direct.main. unfold bind at 1.
  rewrite Direct_run_one,
    (Direct_getCertificates_healthy Append env d L w ders N H HC).
  cbv zeta. cbn [fst snd].
  rewrite Direct_printCertificates_all; [reflexivity|assumption|apply H].
Qed.

Lemma direct_success_output_witness :
  nil_of_nils multierror.Append /\ healthy crt_sh
  /\ Direct_cursor crt_sh github_com 2
     = inl [certificate identity_apex; certificate identity_old]
  /\ Forall (parses parse_any)
       [certificate identity_apex; certificate identity_old]
  /\ Direct.main multierror.Append parse_any crt_sh
       {| verbose := false; limit := 2; printPEM := true;
          Args := [github_com] |} start
     = (0%Z,
        {| calls := Direct_trace crt_sh github_com 2;
           out := flat_map (certificate_lines parse_any true)
                    [certificate identity_apex; certificate identity_old] |}).
Proof.
  assert (P : Forall (parses parse_any)
                [certificate identity_apex; certificate identity_old])
    by (repeat constructor; eexists; reflexivity).
  split; [exact multierror_nil_of_nils|].
  split; [exact crt_sh_healthy|].
  split; [reflexivity|].
  split; [exact P|].
  exact (direct_success_output multierror.Append parse_any crt_sh false true
           github_com 2 start _ multierror_nil_of_nils crt_sh_healthy
           eq_refl P).
Defined.

(** The print loop stops at the first certificate that does not parse, or
    whose PEM block cannot be written: the certificates before it have their
    lines in the log, in order; a certificate that does not parse leaves no
    line, one whose block cannot be written leaves its entry and as much of
    the block as went out before the write failed; nothing of the
    certificates after it is looked at. *)
Theorem direct_print_stops_at_first_failure :
  forall parse env p i pre der post w,
    Forall (parses parse) pre ->
    (p = true ->
     forall j, i <= j < i + List.length pre -> Write_err env j = None) ->
    (forall e,
        parse der = inr e ->
        Direct.printCertificates parse env p i (pre ++ der :: post) w
        = (Some (fmt_Errorf "could not parse x509 certificate (%w)" [] e),
           {| calls := calls w;
              out := out w ++ flat_map (certificate_lines parse p) pre |}))
    /\ (forall cert n e,
        parse der = inl cert -> p = true ->
        Write_err env (i + List.length pre) = Some (n, e) ->
        Direct.printCertificates parse env p i (pre ++ der :: post) w
        = (Some (fmt_Errorf "could not encode PEM (%w)" [] e),
           {| calls := calls w;
              out := out w ++ flat_map (certificate_lines parse p) pre
                     ++ [Printf_entry (Subject_CommonName cert)
                                      (NotBefore cert);
                         PEM_block
                           (firstn n
                              (pem.Encode
                                 {| pem.Type_ := Direct.CERTIFICATE;
                                    pem.Bytes := der |}))] |})).
Proof.
  intros parse env p i pre der post w HP HW. split.
  - intros e He.
    rewrite Direct_printCertificates_app by assumption.
    rewrite Direct_printCertificates_cons, He. reflexivity.
  - intros cert n e Hc -> He.
    rewrite Direct_printCertificates_app by assumption.
    rewrite Direct_printCertificates_cons, Hc, He.
    unfold log; simpl. now rewrite <- !app_assoc.
Qed.

Lemma direct_print_stops_at_first_failure_witness :
  Forall (parses parse_nonempty) [certificate identity_apex]
  /\ Direct.printCertificates parse_nonempty crt_sh false 0
       ([certificate identity_apex] ++ certificate identity_old
          :: [certificate identity_www]) start
     = (Some (fmt_Errorf "could not parse x509 certificate (%w)" []
                (errors_New "x509: malformed certificate")),
        {| calls := [];
           out := flat_map (certificate_lines parse_nonempty false)
                    [certificate identity_apex] |})
  /\ Direct.printCertificates parse_any second_write_fails true 0
       ([certificate identity_apex] ++ certificate identity_old
          :: [certificate identity_www]) start
     = (Some (fmt_Errorf "could not encode PEM (%w)" []
                (errors_New "write: broken pipe")),
        {| calls := [];
           out := flat_map (certificate_lines parse_any true)
                    [certificate identity_apex]
                  ++ [Printf_entry "github.com" 1709769600;
                      PEM_block
                        (firstn 28
                           (pem.Encode
                              {| pem.Type_ := Direct.CERTIFICATE;
                                 pem.Bytes := certificate identity_old |}))] |}).
Proof.
  assert (P : Forall (parses parse_nonempty) [certificate identity_apex])
    by (repeat constructor; eexists; reflexivity).
  assert (Q : Forall (parses parse_any) [certificate identity_apex])
    by (repeat constructor; eexists; reflexivity).
  split; [exact P|]. split.
  - apply (proj1 (direct_print_stops_at_first_failure parse_nonempty crt_sh
                    false 0 [certificate identity_apex]
                    (certificate identity_old) [certificate identity_www]
                    start P ltac:(discriminate))).
    reflexivity.
  - apply (proj2 (direct_print_stops_at_first_failure parse_any
                    second_write_fails true 0 [certificate identity_apex]
                    (certificate identity_old) [certificate identity_www]
                    start Q
                    ltac:(intros _ j Hj; simpl in Hj;
                          assert (j = 0) as -> by lia; reflexivity))
             {| Subject_CommonName := "github.com"; NotBefore := 1709769600 |}
             28 (errors_New "write: broken pipe"));
      reflexivity.
Defined.

(** ** Limits and patterns *)

Lemma Direct_cursor_negative env d L :
  (L < 0)%Z -> Query_err env = None ->
  Direct_cursor env d L = inr sql.limit_negative.
Proof.
  intros HL HQ. unfold Direct_cursor, Direct.certificateQuery, sql.LIMIT.
  rewrite HQ. destruct (Z.ltb_spec L 0); [reflexivity | lia].
Qed.

Lemma Aggregated_cursor_negative env d L :
  (L < 0)%Z -> Query_err env = None ->
  Aggregated_cursor env d L = inr sql.limit_negative.
Proof.
  intros HL HQ. unfold Aggregated_cursor, Aggregated.certificateQuery, sql.LIMIT.
  rewrite HQ. destruct (Z.ltb_spec L 0); [reflexivity | lia].
Qed.

(** The limit is sent as it is.  With a driver that does not fail, a limit
    of 0 selects no row, whatever the table holds: both variants exit with
    status 0 and log no entry.  A negative limit is refused by the server;
    its error comes back wrapped twice, no entry is logged and the status
    is 1. *)
Theorem limit_below_one :
  forall Append parse env v p d L w,
    nil_of_nils Append -> healthy env ->
    let f := {| verbose := v; limit := L; printPEM := p; Args := [d] |} in
    let refused :=
      fmt_Errorf "could not getCertificates of (%v) error (%w)" [d]
        (fmt_Errorf
           "could not execute SQL on postgres for finding certificates (%w)"
           [] sql.limit_negative) in
    (L = 0%Z ->
     Direct.main Append parse env f w
     = (0%Z, {| calls := calls w ++ Direct_trace env d L; out := out w |})
     /\ Aggregated.main Append env f w
        = (0%Z, {| calls := calls w ++ Aggregated_trace env d L;
                   out := out w ++ [Println_certs []] |}))
    /\ ((L < 0)%Z ->
        Direct.main Append parse env f w
        = (1%Z, {| calls := calls w ++ Direct_trace env d L;
                   out := out w ++ [Fatal refused] |})
        /\ Aggregated.main Append env f w
           = (1%Z, {| calls := calls w ++ Aggregated_trace env d L;
                      out := out w ++ [Fatal refused] |})).
Proof.
  intros Append parse env v p d L w N H f refused. unfold f, refused.
  pose proof H as (HO & HD & HP & _ & HQ & HCo & _ & HS & _).
  split.
  - intros ->.
    assert (CD : Direct_cursor env d 0 = inl [])
      by (unfold Direct_cursor; now rewrite HQ).
    assert (CA : Aggregated_cursor env d 0 = inl [])
      by (unfold Aggregated_cursor; now rewrite HQ).
    split.
    + unfold Direct.main. unfold bind at 1.
      rewrite Direct_run_one,
        (Direct_getCertificates_healthy Append env d 0 w [] N H CD).
      reflexivity.
    + unfold Aggregated.main. unfold bind at 1.
      rewrite Aggregated_run_one,
        (Aggregated_getCertificates_healthy Append env d 0 w [] H CA).
      simpl. now rewrite app_nil_r.
  - intros HL. split.
    + unfold Direct.main. unfold bind at 1. rewrite Direct_run_one.
      pose proof (Direct_getCertificates_calls Append env d L w) as C.
      pose proof (Direct_getCertificates_out Append env d L w) as O.
      assert (E : fst (Direct.getCertificates Append env d L w)
                  = ([], Some (fmt_Errorf
                       "could not execute SQL on postgres for finding certificates (%w)"
                       [] sql.limit_negative))).
      { pose proof (Direct_cursor_negative env d L HL HQ) as CN.
        unfold Direct_cursor in CN. rewrite HQ in CN.
        unfold Direct.getCertificates, Direct.db_QueryContext,
          defer, bind, ret, call; simpl.
        rewrite HO; simpl. rewrite HQ, CN; simpl. now rewrite HD. }
      destruct (Direct.getCertificates Append env d L w) as [r w1].
      cbn [fst snd] in *. subst r. cbn [fst snd].
      unfold bind, log, ret; simpl. now rewrite C, O.
    + unfold Aggregated.main. unfold bind at 1.
      rewrite Aggregated_run_one, Aggregated_getCertificates_outcome.
      unfold Aggregated_outcome.
      rewrite HO, HP, (Aggregated_cursor_negative env d L HL HQ).
      simpl. now rewrite app_nil_r.
Qed.

Lemma limit_below_one_witness :
  nil_of_nils multierror.Append /\ healthy crt_sh
  /\ Direct.main multierror.Append parse_nonempty crt_sh
       (flags 0 [github_com]) start
     = (0%Z, {| calls := Direct_trace crt_sh github_com 0; out := [] |})
  /\ ((-3 < 0)%Z
      /\ Aggregated.main multierror.Append crt_sh
           (flags (-3) [github_com]) start
         = (1%Z,
            {| calls := Aggregated_trace crt_sh github_com (-3);
               out := [Fatal
                 (fmt_Errorf "could not getCertificates of (%v) error (%w)"
                    [github_com]
                    (fmt_Errorf
                       "could not execute SQL on postgres for finding certificates (%w)"
                       [] sql.limit_negative))] |})).
Proof.
  split; [exact multierror_nil_of_nils|].
  split; [exact crt_sh_healthy|].
  split.
  - apply (proj1 (limit_below_one multierror.Append parse_nonempty crt_sh
                    false false github_com 0 start multierror_nil_of_nils
                    crt_sh_healthy)).
    reflexivity.
  - split; [lia|].
    apply (proj2 (limit_below_one multierror.Append parse_nonempty crt_sh
                    false false github_com (-3) start multierror_nil_of_nils
                    crt_sh_healthy)).
    lia.
Defined.

(** With a larger limit the direct statement returns the same rows and then
    more: the answer for a limit is the beginning of the answer for any
    larger one. *)
Theorem larger_limit_extends_the_result :
  forall table d L1 L2 r1 r2,
    (0 <= L1 <= L2)%Z ->
    Direct.certificateQuery table d L1 = inl r1 ->
    Direct.certificateQuery table d L2 = inl r2 ->
    r1 = firstn (Z.to_nat L1) r2.
Proof.
  intros table d L1 L2 r1 r2 HL.
  unfold Direct.certificateQuery.
  rewrite !LIMIT_nonneg by lia.
  intros H1 H2. injection H1 as <-. injection H2 as <-.
  rewrite <- firstn_map, <- (firstn_map _ (Z.to_nat L2)).
  rewrite firstn_firstn. f_equal. lia.
Qed.

Lemma larger_limit_extends_the_result_witness :
  (0 <= 1 <= 2)%Z
  /\ Direct.certificateQuery (certificate_and_identities crt_sh) github_com 1
     = inl [certificate identity_apex]
  /\ Direct.certificateQuery (certificate_and_identities crt_sh) github_com 2
     = inl [certificate identity_apex; certificate identity_old]
  /\ [certificate identity_apex]
     = firstn (Z.to_nat 1)
         [certificate identity_apex; certificate identity_old].
Proof.
  split; [lia|]. split; [reflexivity|]. split; [reflexivity|].
  apply (larger_limit_extends_the_result
           (certificate_and_identities crt_sh) github_com 1 2);
    [lia | reflexivity | reflexivity].
Defined.

(** [LIKE] with a leading [%]: the pattern may start anywhere. *)
Lemma like_match_percent_cons p c s :
  sql.like_match ("%"%char :: p) (c :: s)
  = sql.like_match p (c :: s) || sql.like_match ("%"%char :: p) s.
Proof. reflexivity. Qed.

Lemma like_match_percent_nil p :
  sql.like_match ("%"%char :: p) [] = sql.like_match p [].
Proof. simpl. apply orb_false_r. Qed.

Lemma like_match_only_percent s : sql.like_match ["%"%char] s = true.
Proof.
  induction s as [|c s IH]; [reflexivity|].
  rewrite like_match_percent_cons, IH. apply orb_true_r.
Qed.

(** Literal text followed by [%] asks for a prefix. *)
Lemma like_match_prefix d :
  forallb literal d = true ->
  forall s, sql.like_match (d ++ ["%"%char]) s = gobytes.HasPrefix s d.
Proof.
  induction d as [|c d IH]; intros Hd s.
  - simpl app. rewrite like_match_only_percent. now destruct s.
  - simpl in Hd. apply andb_true_iff in Hd as [Hl Hd].
    unfold literal in Hl. apply negb_true_iff in Hl.
    apply orb_false_iff in Hl as [Hl H3]. apply orb_false_iff in Hl as [H1 H2].
    cbn [app sql.like_match gobytes.HasPrefix]. rewrite H1, H2, H3.
    destruct s as [|x s]; [reflexivity|]. now rewrite (IH Hd).
Qed.

(** Literal text between two [%] asks for a substring. *)
Lemma like_match_substring d :
  forallb literal d = true ->
  forall s,
    sql.like_match ("%"%char :: d ++ ["%"%char]) s = gobytes.Contains s d.
Proof.
  intros Hd. induction s as [|c s IH].
  - rewrite like_match_percent_nil, (like_match_prefix d Hd).
    unfold gobytes.Contains. cbn [gobytes.Index].
    now destruct (gobytes.HasPrefix [] d).
  - rewrite like_match_percent_cons, IH, (like_match_prefix d Hd).
    unfold gobytes.Contains. cbn [gobytes.Index].
    destruct (gobytes.HasPrefix (c :: s) d); [reflexivity|].
    now destruct (gobytes.Index s d).
Qed.

Lemma list_ascii_of_string_app a b :
  list_ascii_of_string (a ++ b)%string
  = list_ascii_of_string a ++ list_ascii_of_string b.
Proof. induction a as [|c a IH]; simpl; [reflexivity | now rewrite IH]. Qed.

(** Called with the pattern [%d%] for a domain name [d] without [LIKE]
    metacharacters, the direct statement selects exactly the rows whose
    [name_value] contains [d]: the substring search of the specification is
    what the caller gets by writing the wildcards. *)
Theorem wildcards_give_substring_search :
  forall table d L,
    plain d = true ->
    Direct.certificateQuery table ("%" ++ d ++ "%")%string L
    = certificateQuery_substring table d L.
Proof.
  intros table d L Hd.
  unfold Direct.certificateQuery, certificateQuery_substring.
  rewrite (filter_ext (fun r => sql.LIKE (name_value r) ("%" ++ d ++ "%")%string)
             (fun r => gobytes.Contains (list_ascii_of_string (name_value r))
                                        (list_ascii_of_string d)));
    [reflexivity|].
  intros r. unfold sql.LIKE.
  rewrite list_ascii_of_string_app, list_ascii_of_string_app.
  apply (like_match_substring _ Hd).
Qed.

Lemma wildcards_give_substring_search_witness :
  plain github_com = true
  /\ Direct.certificateQuery (certificate_and_identities crt_sh)
       ("%" ++ github_com ++ "%")%string 1
     = inl [certificate identity_www]
  /\ certificateQuery_substring (certificate_and_identities crt_sh)
       github_com 1
     = inl [certificate identity_www].
Proof.
  split; [reflexivity|]. split; [|reflexivity].
  rewrite (wildcards_give_substring_search
             (certificate_and_identities crt_sh) github_com 1 eq_refl).
  reflexivity.
Defined.

(** ** The [-pem] flag *)



